(** * mqtt-nextjs: the broker client wrapper and the display reducer

    A shallow embedding of [src/lib/mqtt.ts] (the [MQTTClient] singleton), of
    the two display pages and of the two remote pages, with the properties
    the specification states about them.

    Conventions.
    - A JavaScript [number] is an IEEE-754 binary64 value: Rocq's primitive
      [float], whose operations are the same round-to-nearest-even ones.
    - A value that came out of [JSON.parse] is a [JValue]; [JSON.parse]
      itself is a built-in and is taken as a parameter.
    - A [Map<string, _>] or an object used as a dictionary is a [gmap string _].
    - Asynchronous code is cut at its [await]s: every piece between two
      [await]s is one atomic step of a labelled transition system, as the
      single-threaded event loop runs it.
    - A React component is its state cells and refs; an event is handled by
      the handler of the latest render, and followed by the effects whose
      dependencies it changed.

    The definitions come first (one module per source file), then the
    predicates the statements use, then the lemmas and theorems: those the
    specification states (C1 to C10), and further ones read off the code
    (X1 to X27): the remote pages, the display page as a whole, and the
    rest of the broker client. *)

From Stdlib Require Import Floats ZArith String Ascii List Bool Lia.
From stdpp Require Import base option list gmap strings.
Import ListNotations.

Local Open Scope bool_scope.
Local Open Scope string_scope.
Set Warnings "-register-all".

(* ===================================================================== *)
(** * JavaScript values                                                   *)
(* ===================================================================== *)

Module JS.

(** The literals of the sources, written in hexadecimal where the decimal
    literal is not itself a binary64 value. *)
Definition f0 : float := 0%float.
Definition f1 : float := 1%float.
Definition f5 : float := 5%float.
Definition f10 : float := 10%float.
Definition f50 : float := 50%float.
Definition f200 : float := 200%float.
Definition f1_25 : float := 1.25%float.
(** [0.1], i.e. the double nearest to one tenth. *)
Definition f0_1 : float := 0x1.999999999999ap-4%float.

(** [Math.min(x, y)]: NaN if either is NaN, and -0 counts as smaller
    than +0. *)
Definition Math_min (x y : float) : float :=
  if PrimFloat.is_nan x || PrimFloat.is_nan y then PrimFloat.nan
  else if (x <? y)%float then x
  else if (y <? x)%float then y
  else if PrimFloat.get_sign x then x else y.

(** [Math.max(x, y)]: NaN if either is NaN, and +0 counts as larger
    than -0. *)
Definition Math_max (x y : float) : float :=
  if PrimFloat.is_nan x || PrimFloat.is_nan y then PrimFloat.nan
  else if (x <? y)%float then y
  else if (y <? x)%float then x
  else if PrimFloat.get_sign x then y else x.

(** Truthiness of a number: everything but 0, -0 and NaN. *)
Definition number_truthy (x : float) : bool :=
  negb (PrimFloat.is_zero x || PrimFloat.is_nan x).

(** What [JSON.parse] returns. An object is its list of own properties. *)
Inductive JValue : Type :=
| JNull
| JBool (b : bool)
| JNum (x : float)
| JStr (s : string)
| JArr (l : list JValue)
| JObj (props : list (string * JValue)).

(** A value as an expression produces it: [undefined] or a [JValue]. *)
Definition Value : Type := option JValue.
Definition undefined : Value := None.

(** [ToBoolean]. *)
Definition truthy (v : Value) : bool :=
  match v with
  | None => false
  | Some JNull => false
  | Some (JBool b) => b
  | Some (JNum x) => number_truthy x
  | Some (JStr s) => negb (String.eqb s "")
  | Some (JArr _) => true
  | Some (JObj _) => true
  end.

Fixpoint assoc (k : string) (props : list (string * JValue)) : Value :=
  match props with
  | [] => None
  | (k', v) :: rest => if String.eqb k k' then Some v else assoc k rest
  end.

(** The result of evaluating an expression that may throw. *)
Inductive Completion (T : Type) : Type :=
| Normal (x : T)
| Throw (err : string).
Arguments Normal {T} x.
Arguments Throw {T} err.

(** [v.k] for one of the field names the sources read ([button],
    [fileContent], [fileType], [mediaType], [fileName], [activeButton],
    [action], [value]): none of them is defined on a prototype, so
    only an object's own property can answer; reading a property of
    [null] or [undefined] throws a TypeError. *)
Definition get (v : Value) (k : string) : Completion Value :=
  match v with
  | None | Some JNull => Throw "TypeError"
  | Some (JObj props) => Normal (assoc k props)
  | Some _ => Normal undefined
  end.

(** The one-character string at position [i] of [s], if there is one. *)
Fixpoint charAt (s : string) (i : nat) : Value :=
  match s, i with
  | EmptyString, _ => None
  | String c _, O => Some (JStr (String c EmptyString))
  | String _ s', S i' => charAt s' i'
  end.

(** [v[i]]: the element of an array, the character of a string. *)
Definition index (v : Value) (i : nat) : Completion Value :=
  match v with
  | None | Some JNull => Throw "TypeError"
  | Some (JArr l) => Normal (nth_error l i)
  | Some (JStr s) => Normal (charAt s i)
  | Some _ => Normal undefined
  end.

(** [item.k] for an [item] that is not [null]. *)
Definition field (item : JValue) (k : string) : Value :=
  match get (Some item) k with
  | Normal v => v
  | Throw _ => undefined
  end.

(** [v === 's'] for a string literal. *)
Definition is_str (v : Value) (s : string) : bool :=
  match v with
  | Some (JStr s') => String.eqb s' s
  | _ => false
  end.

End JS.

(* ===================================================================== *)
(** * String operations the pages use                                *)
(* ===================================================================== *)

Module Str.

(** [s.startsWith(p)], returning what follows the prefix. *)
Fixpoint strip_prefix (p s : string) : option string :=
  match p, s with
  | EmptyString, _ => Some s
  | String a p', String b s' =>
      if Ascii.eqb a b then strip_prefix p' s' else None
  | String _ _, EmptyString => None
  end.

Definition startsWith (s p : string) : bool :=
  match strip_prefix p s with Some _ => true | None => false end.

(** [s.includes(p)] *)
Fixpoint includes (s p : string) : bool :=
  startsWith s p
  || match s with
     | EmptyString => false
     | String _ s' => includes s' p
     end.

(** [s.split('/').pop()]: what follows the last ['/'] (all of [s] when it
    has none). *)
Fixpoint last_segment_from (acc s : string) : string :=
  match s with
  | EmptyString => acc
  | String c s' =>
      if Ascii.eqb c "/"%char then last_segment_from s' s'
      else last_segment_from acc s'
  end.
Definition last_segment (s : string) : string := last_segment_from s s.

(** The class [[a-zA-Z0-9_-]]. *)
Definition is_id_char (c : ascii) : bool :=
  let n := nat_of_ascii c in
  (97 <=? n)%nat && (n <=? 122)%nat
  || (65 <=? n)%nat && (n <=? 90)%nat
  || (48 <=? n)%nat && (n <=? 57)%nat
  || Ascii.eqb c "_"%char || Ascii.eqb c "-"%char.

(** The longest prefix matching [[a-zA-Z0-9_-]*]. *)
Fixpoint take_id (s : string) : string :=
  match s with
  | String c s' => if is_id_char c then String c (take_id s') else EmptyString
  | EmptyString => EmptyString
  end.

(** One of the literal alternatives, then [([a-zA-Z0-9_-]+)], anchored
    at the start of [s]. *)
Fixpoint match_here (alternatives : list string) (s : string) : option string :=
  match alternatives with
  | [] => None
  | p :: rest =>
      match strip_prefix p s with
      | Some after =>
          match take_id after with
          | EmptyString => match_here rest s
          | id => Some id
          end
      | None => match_here rest s
      end
  end.

(** [s.match(/(?:alt1|alt2|...)([a-zA-Z0-9_-]+)/)?.[1]]: the leftmost
    match's capture. *)
Fixpoint match_id (alternatives : list string) (s : string) : option string :=
  match match_here alternatives s with
  | Some id => Some id
  | None =>
      match s with
      | EmptyString => None
      | String _ s' => match_id alternatives s'
      end
  end.

(** Comparison of characters under the [i] flag (ASCII letters). *)
Definition lower (c : ascii) : ascii :=
  let n := nat_of_ascii c in
  if (65 <=? n)%nat && (n <=? 90)%nat then ascii_of_nat (n + 32) else c.

Fixpoint eqb_ci (a b : string) : bool :=
  match a, b with
  | EmptyString, EmptyString => true
  | String x a', String y b' => Ascii.eqb (lower x) (lower y) && eqb_ci a' b'
  | _, _ => false
  end.

(** [s.match(/\.(e1|e2|...)$/i)?.[0]]: the suffix of [s] that is a dot
    and one of the extensions, in any case. *)
Fixpoint match_extension (extensions : list string) (s : string) : option string :=
  if existsb (fun e => eqb_ci s (String "."%char e)) extensions then Some s
  else match s with
       | EmptyString => None
       | String _ s' => match_extension extensions s'
       end.

End Str.

(* ===================================================================== *)
(** * The message interfaces of [src/lib/mqtt.ts]                         *)
(* ===================================================================== *)

(** ['A' | 'B'] *)
Inductive Button : Type := A | B.

Definition Button_eqb (x y : Button) : bool :=
  match x, y with
  | A, A | B, B => true
  | _, _ => false
  end.

Definition Button_key (b : Button) : string :=
  match b with A => "A" | B => "B" end.

Definition other (b : Button) : Button :=
  match b with A => B | B => A end.

(** [MediaControlMessage['action']] *)
Inductive Action : Type :=
| play | pause | seek_forward | seek_backward
| zoom_in | zoom_out | zoom_reset
| move_up | move_down | move_left | move_right | move_reset
| scroll_stop | scroll_speed_up | scroll_speed_down.

Record MediaControlMessage : Type := {
  button : Button;
  action : Action;
  value : option float;
  timestamp : float;
}.

Record ButtonControlMessage : Type := {
  activeButton : Button;
  bc_timestamp : float;
}.

(** The [FileMessage] interface, as a check on a parsed value: [button] is
    ['A'] or ['B'], [fileName] and [fileContent] are arrays of strings,
    [fileType] is a string, [mediaType] one of the four kinds, [timestamp] a
    number, and [isLocalFile] and [filePath], when present, a boolean and a
    string. *)
Module FileMessage.
Import JS.

Definition is_string (v : Value) : bool :=
  match v with Some (JStr _) => true | _ => false end.

Definition is_number (v : Value) : bool :=
  match v with Some (JNum _) => true | _ => false end.

Definition is_string_array (v : Value) : bool :=
  match v with
  | Some (JArr l) =>
      forallb (fun x => match x with JStr _ => true | _ => false end) l
  | _ => false
  end.

Definition optional (check : Value -> bool) (v : Value) : bool :=
  match v with None => true | Some _ => check v end.

Definition is_boolean (v : Value) : bool :=
  match v with Some (JBool _) => true | _ => false end.

Definition conforms (v : JValue) : bool :=
  (is_str (field v "button") "A" || is_str (field v "button") "B")
  && is_string_array (field v "fileName")
  && is_string_array (field v "fileContent")
  && is_string (field v "fileType")
  && (is_str (field v "mediaType") "image" || is_str (field v "mediaType") "video"
      || is_str (field v "mediaType") "text" || is_str (field v "mediaType") "pdf")
  && is_number (field v "timestamp")
  && optional is_boolean (field v "isLocalFile")
  && optional is_string (field v "filePath").

End FileMessage.

(* ===================================================================== *)
(** * The display page with playback control ([src/unnamed/part_001])     *)
(* ===================================================================== *)

Module Display.
Import JS.

(** ['down' | 'up'] *)
Inductive ScrollDirection : Type := down | up.

Record Position : Type := { x : float; y : float }.

Record MediaState : Type := {
  zoomLevel : float;
  isPlaying : bool;
  position : Position;
  scrollSpeed : float;
  isScrolling : bool;
  scrollDirection : ScrollDirection;
}.

(** The [mediaState] object: one [MediaState] under each of the keys
    ['A'] and ['B']. *)
Record MediaStates : Type := { onA : MediaState; onB : MediaState }.

(** [prev[button]] *)
Definition at_button (s : MediaStates) (b : Button) : MediaState :=
  match b with A => onA s | B => onB s end.

(** [{ ...prev, [button]: m }] *)
Definition set_button (s : MediaStates) (b : Button) (m : MediaState)
  : MediaStates :=
  match b with
  | A => {| onA := m; onB := onB s |}
  | B => {| onA := onA s; onB := m |}
  end.

(** The object spreads [{ ...m, field: v }]. *)
Definition with_zoomLevel (m : MediaState) (v : float) : MediaState :=
  {| zoomLevel := v; isPlaying := isPlaying m; position := position m;
     scrollSpeed := scrollSpeed m; isScrolling := isScrolling m;
     scrollDirection := scrollDirection m |}.
Definition with_isPlaying (m : MediaState) (v : bool) : MediaState :=
  {| zoomLevel := zoomLevel m; isPlaying := v; position := position m;
     scrollSpeed := scrollSpeed m; isScrolling := isScrolling m;
     scrollDirection := scrollDirection m |}.
Definition with_position (m : MediaState) (v : Position) : MediaState :=
  {| zoomLevel := zoomLevel m; isPlaying := isPlaying m; position := v;
     scrollSpeed := scrollSpeed m; isScrolling := isScrolling m;
     scrollDirection := scrollDirection m |}.
Definition with_scrollSpeed (m : MediaState) (v : float) : MediaState :=
  {| zoomLevel := zoomLevel m; isPlaying := isPlaying m; position := position m;
     scrollSpeed := v; isScrolling := isScrolling m;
     scrollDirection := scrollDirection m |}.
Definition with_isScrolling (m : MediaState) (v : bool) : MediaState :=
  {| zoomLevel := zoomLevel m; isPlaying := isPlaying m; position := position m;
     scrollSpeed := scrollSpeed m; isScrolling := v;
     scrollDirection := scrollDirection m |}.
Definition with_scrollDirection (m : MediaState) (v : ScrollDirection)
  : MediaState :=
  {| zoomLevel := zoomLevel m; isPlaying := isPlaying m; position := position m;
     scrollSpeed := scrollSpeed m; isScrolling := isScrolling m;
     scrollDirection := v |}.
Definition with_x (p : Position) (v : float) : Position := {| x := v; y := y p |}.
Definition with_y (p : Position) (v : float) : Position := {| x := x p; y := v |}.

(** The initial [MediaState] of both buttons (the [useState] argument). *)
Definition initialMediaState : MediaState :=
  {| zoomLevel := f1; isPlaying := false; position := {| x := f0; y := f0 |};
     scrollSpeed := f50; isScrolling := false; scrollDirection := down |}.

Definition initialMediaStates : MediaStates :=
  {| onA := initialMediaState; onB := initialMediaState |}.

(** What the reducer does besides computing the next state: calls on the
    video element behind [videoRef], and on the animation frame behind
    [rafRef]. *)
Inductive Effect : Type :=
| VideoPlay                            (* videoRef.current.play() *)
| VideoPause                           (* videoRef.current.pause() *)
| VideoSeekForward (d : float)         (* currentTime += d *)
| VideoSeekBackward (d : float)        (* currentTime = max(0, currentTime - d) *)
| CancelAnimationFrame (id : positive) (* and rafRef.current = null *).

(** [value || 10] *)
Definition value_or_10 (v : option float) : float :=
  match v with
  | Some d => if number_truthy d then d else f10
  | None => f10
  end.

Section Reducer.
(** The component's [selectedButton] of the render the handler closes
    over, whether [videoRef.current] holds a video element, and
    [rafRef.current] (a request id, or [null]). *)
Variable selectedButton : Button.
Variable videoRef : bool.
Variable rafRef : option positive.

(** [if (button === selectedButton && videoRef.current) e] *)
Definition on_selected_video (b : Button) (e : Effect) : list Effect :=
  if Button_eqb b selectedButton && videoRef then [e] else [].

(** The updater that [handleMediaControlMessage] passes to
    [setMediaState], with the calls it makes on the way. *)
Definition handleMediaControlMessage (controlData : MediaControlMessage)
  (prev : MediaStates) : MediaStates * list Effect :=
  let b := button controlData in
  let cur := at_button prev b in
  match action controlData with
  | play =>
      (set_button prev b (with_isPlaying cur true),
       on_selected_video b VideoPlay)
  | pause =>
      (set_button prev b (with_isPlaying cur false),
       on_selected_video b VideoPause)
  | seek_forward =>
      (prev, on_selected_video b
               (VideoSeekForward (value_or_10 (value controlData))))
  | seek_backward =>
      (prev, on_selected_video b
               (VideoSeekBackward (value_or_10 (value controlData))))
  | zoom_in =>
      (set_button prev b
         (with_zoomLevel cur (Math_min (zoomLevel cur * f1_25)%float f5)), [])
  | zoom_out =>
      (set_button prev b
         (with_zoomLevel cur (Math_max (zoomLevel cur / f1_25)%float f0_1)), [])
  | zoom_reset =>
      (set_button prev b (with_zoomLevel cur f1), [])
  | move_up =>
      (set_button prev b
         (with_position cur
            (with_y (position cur) (y (position cur) - f50)%float)), [])
  | move_down =>
      (set_button prev b
         (with_position cur
            (with_y (position cur) (y (position cur) + f50)%float)), [])
  | move_left =>
      (set_button prev b
         (with_position cur
            (with_x (position cur) (x (position cur) - f50)%float)), [])
  | move_right =>
      (set_button prev b
         (with_position cur
            (with_x (position cur) (x (position cur) + f50)%float)), [])
  | move_reset =>
      (set_button prev b (with_position cur {| x := f0; y := f0 |}), [])
  | scroll_stop =>
      (set_button prev b (with_isScrolling cur false),
       match rafRef with
       | Some id => [CancelAnimationFrame id]
       | None => []
       end)
  | scroll_speed_up =>
      (set_button prev b
         (with_scrollSpeed cur (Math_min (scrollSpeed cur + f10)%float f200)), [])
  | scroll_speed_down =>
      (set_button prev b
         (with_scrollSpeed cur (Math_max (scrollSpeed cur - f10)%float f10)), [])
  end.
End Reducer.

(** ** The component state and its message handler *)

(** The [useState] cells and the refs of the component. [buttonMedia]
    holds the parsed messages as they arrived. *)
Record State : Type := {
  isConnected : bool;
  buttonMedia : gmap string JValue;
  currentDisplay : option JValue;
  selectedButton : Button;
  status : string;
  mediaState : MediaStates;
  videoRef : bool;
  scrollRef : float;
  rafRef : option positive;
}.

Definition initialState : State :=
  {| isConnected := false; buttonMedia := ∅; currentDisplay := None;
     selectedButton := A; status := "Connecting to MQTT...";
     mediaState := initialMediaStates;
     videoRef := false; scrollRef := f0; rafRef := None |}.

Definition setButtonMedia (st : State) (m : gmap string JValue) : State :=
  {| isConnected := isConnected st; buttonMedia := m;
     currentDisplay := currentDisplay st; selectedButton := selectedButton st;
     status := status st; mediaState := mediaState st;
     videoRef := videoRef st; scrollRef := scrollRef st; rafRef := rafRef st |}.
Definition setCurrentDisplay (st : State) (d : option JValue) : State :=
  {| isConnected := isConnected st; buttonMedia := buttonMedia st;
     currentDisplay := d; selectedButton := selectedButton st;
     status := status st; mediaState := mediaState st;
     videoRef := videoRef st; scrollRef := scrollRef st; rafRef := rafRef st |}.
Definition setSelectedButton (st : State) (b : Button) : State :=
  {| isConnected := isConnected st; buttonMedia := buttonMedia st;
     currentDisplay := currentDisplay st; selectedButton := b;
     status := status st; mediaState := mediaState st;
     videoRef := videoRef st; scrollRef := scrollRef st; rafRef := rafRef st |}.
Definition setStatus (st : State) (s : string) : State :=
  {| isConnected := isConnected st; buttonMedia := buttonMedia st;
     currentDisplay := currentDisplay st; selectedButton := selectedButton st;
     status := s; mediaState := mediaState st;
     videoRef := videoRef st; scrollRef := scrollRef st; rafRef := rafRef st |}.
Definition setMediaState (st : State) (m : MediaStates) : State :=
  {| isConnected := isConnected st; buttonMedia := buttonMedia st;
     currentDisplay := currentDisplay st; selectedButton := selectedButton st;
     status := status st; mediaState := m;
     videoRef := videoRef st; scrollRef := scrollRef st; rafRef := rafRef st |}.
Definition setRefs (st : State) (v : bool) (sc : float) (r : option positive)
  : State :=
  {| isConnected := isConnected st; buttonMedia := buttonMedia st;
     currentDisplay := currentDisplay st; selectedButton := selectedButton st;
     status := status st; mediaState := mediaState st;
     videoRef := v; scrollRef := sc; rafRef := r |}.

(** [setMediaState(prev => ({ ...prev, [b]: f(prev[b]) }))] *)
Definition updateMediaState (st : State) (b : Button)
    (f : MediaState -> MediaState) : State :=
  setMediaState st (set_button (mediaState st) b (f (at_button (mediaState st) b))).

(** What one call of a handler leaves behind. [IllTyped] stands for a
    payload that parses but does not inhabit the interface the handler
    casts it to ([ButtonControlMessage], [MediaControlMessage], or a
    [FileMessage] whose [button] is not a string); TypeScript's types
    exclude it and the handler is not modelled there. *)
Inductive Handled : Type :=
| Done (st : State) (effects : list Effect) (errors : list string)
       (mediaSet : bool)
| IllTyped.

(** The casts [const controlData: ButtonControlMessage = data] and
    [const mediaControlData: MediaControlMessage = data], read field by
    field. *)
Definition as_Button (v : Value) : option Button :=
  match v with
  | Some (JStr "A") => Some A
  | Some (JStr "B") => Some B
  | _ => None
  end.

(** The [case] label the [switch (action)] selects, if any. *)
Definition as_Action (v : Value) : option Action :=
  match v with
  | Some (JStr s) =>
      if String.eqb s "play" then Some play
      else if String.eqb s "pause" then Some pause
      else if String.eqb s "seek_forward" then Some seek_forward
      else if String.eqb s "seek_backward" then Some seek_backward
      else if String.eqb s "zoom_in" then Some zoom_in
      else if String.eqb s "zoom_out" then Some zoom_out
      else if String.eqb s "zoom_reset" then Some zoom_reset
      else if String.eqb s "move_up" then Some move_up
      else if String.eqb s "move_down" then Some move_down
      else if String.eqb s "move_left" then Some move_left
      else if String.eqb s "move_right" then Some move_right
      else if String.eqb s "move_reset" then Some move_reset
      else if String.eqb s "scroll_stop" then Some scroll_stop
      else if String.eqb s "scroll_speed_up" then Some scroll_speed_up
      else if String.eqb s "scroll_speed_down" then Some scroll_speed_down
      else None
  | _ => None
  end.

(** [value?: number]: absent, or a number ([null] behaves as absent under
    [value || 10]). *)
Definition as_value (v : Value) : option (option float) :=
  match v with
  | None | Some JNull => Some None
  | Some (JNum d) => Some (Some d)
  | Some _ => None
  end.

Definition as_number (v : Value) : option float :=
  match v with
  | Some (JNum d) => Some d
  | _ => None
  end.

Section Handler.
(** [JSON.parse]: [None] when it throws a SyntaxError. *)
Variable JSON_parse : string -> option JValue.

(** The [home/mediaControl] branch of [handleMQTTMessage]. *)
Definition onMediaControl (st : State) (data : JValue) : Handled :=
  match get (Some data) "button", get (Some data) "action",
        get (Some data) "value", get (Some data) "timestamp" with
  | Normal vb, Normal va, Normal vv, Normal vt =>
      match as_Button vb, as_value vv, as_number vt with
      | Some b, Some v, Some t =>
          match as_Action va with
          | Some a =>
              let '(next, effects) :=
                handleMediaControlMessage (selectedButton st) (videoRef st)
                  (rafRef st)
                  {| button := b; action := a; value := v; timestamp := t |}
                  (mediaState st) in
              let st' := setMediaState st next in
              let st' :=
                match a, rafRef st with
                | scroll_stop, Some _ =>
                    setRefs st' (videoRef st) (scrollRef st) None
                | _, _ => st'
                end in
              Done st' effects [] false
          | None => Done st [] [] false
          end
      | _, _, _ => IllTyped
      end
  | _, _, _, _ => Done st [] ["Error parsing message:"] false
  end.

(** The [home/buttonControl] branch. *)
Definition onButtonControl (st : State) (data : JValue) : Handled :=
  match get (Some data) "activeButton" with
  | Normal v =>
      match as_Button v with
      | Some b => Done (setSelectedButton st b) [] [] false
      | None => IllTyped
      end
  | Throw _ => Done st [] ["Error parsing message:"] false
  end.

(** The last branch: a media message on a button topic. *)
Definition onMedia (st : State) (data : JValue) : Handled :=
  match get (Some data) "button", get (Some data) "fileContent",
        get (Some data) "fileType", get (Some data) "mediaType" with
  | Normal vb, Normal vc, Normal vt, Normal vm =>
      if truthy vb && truthy vc && truthy vt then
        match vb with
        | Some (JStr key) =>
            let st1 := setButtonMedia st (<[key := data]> (buttonMedia st)) in
            let st2 := setStatus st1 "Connected - Media loaded" in
            let sel := selectedButton st in
            let mine := String.eqb key (Button_key sel) in
            let st3 :=
              if is_str vm "video" && mine
              then updateMediaState st2 sel (fun m => with_isPlaying m true)
              else st2 in
            let st4 :=
              if is_str vm "image" && mine
              then setRefs
                     (updateMediaState st3 sel
                        (fun m => with_scrollDirection
                                    (with_isScrolling m true) down))
                     (videoRef st3) f0 (rafRef st3)
              else st3 in
            Done st4 [] [] true
        | _ => IllTyped
        end
      else Done st [] [] false
  | _, _, _, _ => Done st [] ["Error parsing message:"] false
  end.

(** [handleMQTTMessage(message, topic)] *)
Definition handleMQTTMessage (st : State) (message topic : string) : Handled :=
  match JSON_parse message with
  | None => Done st [] ["Error parsing message:"] false
  | Some data =>
      if String.eqb topic "home/buttonControl" then onButtonControl st data
      else if String.eqb topic "home/mediaControl" then onMediaControl st data
      else onMedia st data
  end.
End Handler.

(** ** Effects and the event loop of the page *)

(** [item.mediaType] of a stored item. *)
Definition mediaType_of (item : JValue) : Value :=
  match get (Some item) "mediaType" with
  | Normal v => v
  | Throw _ => undefined
  end.

(** The effect with dependencies [[selectedButton, buttonMedia]]: it
    selects what is displayed. *)
Definition displayEffect (st : State) : State * list Effect :=
  let sel := selectedButton st in
  match buttonMedia st !! Button_key sel with
  | Some item =>
      if truthy (Some item) then
        let st1 := setCurrentDisplay st (Some item) in
        let effects :=
          if is_str (mediaType_of item) "video"
             && isPlaying (at_button (mediaState st) sel) && videoRef st
          then [VideoPlay] else [] in
        if is_str (mediaType_of item) "image" then
          (setRefs
             (updateMediaState st1 sel
                (fun m => with_scrollDirection (with_isScrolling m true) down))
             (videoRef st1) f0 (rafRef st1), effects)
        else (st1, effects)
      else (setCurrentDisplay st None, [])
  | None => (setCurrentDisplay st None, [])
  end.

(** What the page reacts to: a message delivered by the client, the
    [play] and [pause] events of the video element, the autoscroll frame
    reaching the bottom or the top of the container, and the refs being
    assigned (by the renderer, by [requestAnimationFrame]). *)
Inductive Event : Type :=
| Incoming (message topic : string)
| VideoPlayed
| VideoPaused
| ScrollReachedBottom (maxScroll : float)
| ScrollReachedTop
| RefsAssigned (video : bool) (scroll : float) (raf : option positive).

Section Loop.
Variable JSON_parse : string -> option JValue.

(** One event, followed by the render it causes and the effects whose
    dependencies changed. [None]: the payload was ill-typed. *)
Definition step (st : State) (ev : Event) : option State :=
  match ev with
  | Incoming message topic =>
      match handleMQTTMessage JSON_parse st message topic with
      | Done st' _ _ mediaSet =>
          if mediaSet
             || negb (Button_eqb (selectedButton st) (selectedButton st'))
          then Some (fst (displayEffect st'))
          else Some st'
      | IllTyped => None
      end
  | VideoPlayed =>
      Some (updateMediaState st (selectedButton st)
              (fun m => with_isPlaying m true))
  | VideoPaused =>
      Some (updateMediaState st (selectedButton st)
              (fun m => with_isPlaying m false))
  | ScrollReachedBottom maxScroll =>
      Some (setRefs
              (updateMediaState st (selectedButton st)
                 (fun m => with_scrollDirection m up))
              (videoRef st) maxScroll (rafRef st))
  | ScrollReachedTop =>
      Some (setRefs
              (updateMediaState st (selectedButton st)
                 (fun m => with_scrollDirection m down))
              (videoRef st) f0 (rafRef st))
  | RefsAssigned v sc r => Some (setRefs st v sc r)
  end.

Fixpoint run (st : State) (evs : list Event) : option State :=
  match evs with
  | [] => Some st
  | ev :: rest =>
      match step st ev with
      | Some st' => run st' rest
      | None => None
      end
  end.
End Loop.

(** A sequence of control messages, each handled under the render it
    arrives in (its [selectedButton], [videoRef] and [rafRef]). *)
Record Control : Type := {
  c_selected : Button;
  c_video : bool;
  c_raf : option positive;
  c_message : MediaControlMessage;
}.

Definition reduce (prev : MediaStates) (c : Control) : MediaStates :=
  fst (handleMediaControlMessage (c_selected c) (c_video c) (c_raf c)
         (c_message c) prev).

Definition reduceAll (cs : list Control) : MediaStates :=
  fold_left reduce cs initialMediaStates.

(** ** What the page renders *)

(** The media part of the rendered tree, with the props as they are
    passed. *)
Inductive Rendered : Type :=
| Waiting (connected : bool) (current : Button)
| TextBlock (content : Value)
| PdfFrame (src title : Value)
| YouTubeFrame (src : Value)
| VideoElement (src : Value)
| Images (items : list (Value * Value))   (* src, alt *)
| RenderError (err : string).

(** [mediaUrls.map((url, index) => <img src={url} alt={fileNames[index]} />)] *)
Fixpoint images_from (i : nat) (urls : list JValue) (fileNames : Value)
  : Completion (list (Value * Value)) :=
  match urls with
  | [] => Normal []
  | url :: rest =>
      match index fileNames i, images_from (S i) rest fileNames with
      | Normal alt, Normal items => Normal ((Some url, alt) :: items)
      | Throw e, _ => Throw e
      | _, Throw e => Throw e
      end
  end.

Definition renderContent (st : State) : Rendered :=
  match currentDisplay st with
  | None => Waiting (isConnected st) (selectedButton st)
  | Some item =>
      if negb (truthy (Some item))
      then Waiting (isConnected st) (selectedButton st)
      else
        let mediaUrls := field item "fileContent" in
        let fileNames := field item "fileName" in
        let isVideo := is_str (field item "mediaType") "video" in
        let isText := is_str (field item "mediaType") "text" in
        let isPdf := is_str (field item "mediaType") "pdf" in
        let isYouTube := is_str (field item "fileType") "video/youtube" in
        if isText then
          match index mediaUrls 0 with
          | Normal v => TextBlock v
          | Throw e => RenderError e
          end
        else if isPdf then
          match index mediaUrls 0, index fileNames 0 with
          | Normal v, Normal t => PdfFrame v t
          | Throw e, _ => RenderError e
          | _, Throw e => RenderError e
          end
        else if isVideo then
          match index mediaUrls 0 with
          | Normal v => if isYouTube then YouTubeFrame v else VideoElement v
          | Throw e => RenderError e
          end
        else
          match mediaUrls with
          | Some (JArr urls) =>
              match images_from 0 urls fileNames with
              | Normal items => Images items
              | Throw e => RenderError e
              end
          | _ => RenderError "TypeError"
          end
  end.

End Display.

(* ===================================================================== *)
(** * The display page without playback control ([src/unnamed/part_000])  *)
(* ===================================================================== *)

Module SimpleDisplay.
Import JS.

Record State : Type := {
  isConnected : bool;
  buttonMedia : gmap string JValue;
  currentDisplay : option JValue;
  selectedButton : Button;
  status : string;
}.

Definition initialState : State :=
  {| isConnected := false; buttonMedia := ∅; currentDisplay := None;
     selectedButton := A; status := "Connecting to MQTT..." |}.

Inductive Handled : Type :=
| Done (st : State) (errors : list string) (mediaSet : bool)
| IllTyped.

Section Handler.
Variable JSON_parse : string -> option JValue.

Definition handleMQTTMessage (st : State) (message topic : string) : Handled :=
  match JSON_parse message with
  | None => Done st ["Error parsing message:"] false
  | Some data =>
      if String.eqb topic "home/buttonControl" then
        match get (Some data) "activeButton" with
        | Normal v =>
            match Display.as_Button v with
            | Some b =>
                Done {| isConnected := isConnected st;
                        buttonMedia := buttonMedia st;
                        currentDisplay := currentDisplay st;
                        selectedButton := b; status := status st |} [] false
            | None => IllTyped
            end
        | Throw _ => Done st ["Error parsing message:"] false
        end
      else
        match get (Some data) "button", get (Some data) "fileContent",
              get (Some data) "fileType" with
        | Normal vb, Normal vc, Normal vt =>
            if truthy vb && truthy vc && truthy vt then
              match vb with
              | Some (JStr key) =>
                  Done {| isConnected := isConnected st;
                          buttonMedia := <[key := data]> (buttonMedia st);
                          currentDisplay := currentDisplay st;
                          selectedButton := selectedButton st;
                          status := "Connected - Media loaded" |} [] true
              | _ => IllTyped
              end
            else Done st [] false
        | _, _, _ => Done st ["Error parsing message:"] false
        end
  end.

(** The effect with dependencies [[selectedButton, buttonMedia]]. *)
Definition displayEffect (st : State) : State :=
  let shown :=
    match buttonMedia st !! Button_key (selectedButton st) with
    | Some item => if truthy (Some item) then Some item else None
    | None => None
    end in
  {| isConnected := isConnected st; buttonMedia := buttonMedia st;
     currentDisplay := shown; selectedButton := selectedButton st;
     status := status st |}.

Definition step (st : State) (message topic : string) : option State :=
  match handleMQTTMessage st message topic with
  | Done st' _ mediaSet =>
      if mediaSet
         || negb (Button_eqb (selectedButton st) (selectedButton st'))
      then Some (displayEffect st')
      else Some st'
  | IllTyped => None
  end.

Fixpoint run (st : State) (msgs : list (string * string)) : option State :=
  match msgs with
  | [] => Some st
  | (message, topic) :: rest =>
      match step st message topic with
      | Some st' => run st' rest
      | None => None
      end
  end.
End Handler.

(** ** What the page renders *)

Inductive Rendered : Type :=
| Waiting (connected : bool) (current : Button)
| YouTubeFrame (src : Value)
| VideoElement (src : Value)
| Image (src alt : Value)
| RenderError (err : string).

(** [currentDisplay.mediaType === 'video' ||
     currentDisplay.fileType.startsWith('video/')]; only a string has
    [startsWith]. *)
Definition isVideo (item : JValue) : Completion bool :=
  if is_str (field item "mediaType") "video" then Normal true
  else match field item "fileType" with
       | Some (JStr t) => Normal (Str.startsWith t "video/")
       | _ => Throw "TypeError"
       end.

Definition renderContent (st : State) : Rendered :=
  match currentDisplay st with
  | None => Waiting (isConnected st) (selectedButton st)
  | Some item =>
      if negb (truthy (Some item))
      then Waiting (isConnected st) (selectedButton st)
      else
        let mediaUrl := field item "fileContent" in
        match isVideo item with
        | Throw e => RenderError e
        | Normal true =>
            if is_str (field item "fileType") "video/youtube"
            then YouTubeFrame mediaUrl
            else VideoElement mediaUrl
        | Normal false => Image mediaUrl (field item "fileName")
        end
  end.

End SimpleDisplay.

(* ===================================================================== *)
(** * The remote page for media URLs ([src/pages/remote.tsx])             *)
(* ===================================================================== *)

Module Remote.
Import JS.

(** ['auto' | 'image' | 'video'] *)
Inductive TypeSelection : Type := auto | image | video.

Inductive MediaKind : Type := kImage | kVideo.
Definition MediaKind_str (k : MediaKind) : string :=
  match k with kImage => "image" | kVideo => "video" end.

Record Processed : Type := {
  processedUrl : string;
  fileType : string;
  mediaType : MediaKind;
}.

Definition image_extensions : list string :=
  ["jpg"; "jpeg"; "png"; "gif"; "webp"; "bmp"; "svg"].
Definition video_extensions : list string :=
  ["mp4"; "webm"; "mov"; "avi"; "mkv"; "ogv"].

(** [url.match(/\.(jpg|...)$/i)?.[0] || 'image/jpeg'] *)
Definition image_fileType (url : string) : string :=
  match Str.match_extension image_extensions url with
  | Some m => m
  | None => "image/jpeg"
  end.

Definition is_Some_b {T} (o : option T) : bool :=
  match o with Some _ => true | None => false end.

Definition wants_image (selectedType : TypeSelection) (url : string) : bool :=
  match selectedType with
  | image => true
  | auto => is_Some_b (Str.match_extension image_extensions url)
  | video => false
  end.

Definition wants_video (selectedType : TypeSelection) (url : string) : bool :=
  match selectedType with
  | video => true
  | auto => is_Some_b (Str.match_extension video_extensions url)
  | image => false
  end.

Definition processMediaUrl (url : string) (selectedType : TypeSelection)
  : Processed :=
  let unchanged :=
    {| processedUrl := url; fileType := "image/jpeg"; mediaType := kImage |} in
  if Str.includes url "youtube.com" || Str.includes url "youtu.be" then
    match Str.match_id
            ["youtube.com/watch?v="; "youtube.com/embed/"; "youtu.be/"] url with
    | Some videoId =>
        {| processedUrl :=
             "https://www.youtube-nocookie.com/embed/" ++ videoId
             ++ "?autoplay=1&mute=1";
           fileType := "video/youtube"; mediaType := kVideo |}
    | None => unchanged
    end
  else if Str.includes url "drive.google.com" then
    match Str.match_id ["drive.google.com/file/d/"] url with
    | Some fileId =>
        if wants_image selectedType url then
          {| processedUrl := "https://drive.google.com/uc?export=view&id=" ++ fileId;
             fileType := image_fileType url; mediaType := kImage |}
        else
          {| processedUrl :=
               "https://drive.google.com/file/d/" ++ fileId ++ "/preview?autoplay=1";
             fileType := "video/mp4"; mediaType := kVideo |}
    | None => unchanged
    end
  else if wants_video selectedType url then
    {| processedUrl := url; fileType := "video/mp4"; mediaType := kVideo |}
  else if wants_image selectedType url then
    {| processedUrl := url; fileType := image_fileType url; mediaType := kImage |}
  else unchanged.

Record State : Type := {
  isConnected : bool;
  connectionStatus : string;
  mediaUrl : string;
  selectedButton : Button;
  mediaTypeSelection : TypeSelection;
}.

(** [mediaUrl.split('/').pop() || 'media'] *)
Definition fileName_of (mediaUrl : string) : string :=
  match Str.last_segment mediaUrl with
  | EmptyString => "media"
  | name => name
  end.

(** The object literal [message] of [handleMediaUpload]. *)
Definition message_of (st : State) (now : float) : JValue :=
  let p := processMediaUrl (mediaUrl st) (mediaTypeSelection st) in
  JObj [ ("button", JStr (Button_key (selectedButton st)));
         ("fileName", JStr (fileName_of (mediaUrl st)));
         ("fileContent", JStr (processedUrl p));
         ("fileType", JStr (fileType p));
         ("mediaType", JStr (MediaKind_str (mediaType p)));
         ("timestamp", JNum now) ].

Inductive Upload : Type :=
| Alert (text : string)
| Publish (topic : string) (message : JValue).

(** [handleMediaUpload], up to its call of [mqttClient.publish] (whose
    payload is [JSON.stringify(message)]); [now] is [Date.now()]. *)
Definition handleMediaUpload (st : State) (now : float) : Upload :=
  if String.eqb (mediaUrl st) "" then Alert "Please enter a media URL"
  else if negb (isConnected st) then
    Alert ("MQTT not connected. Status: " ++ connectionStatus st)
  else Publish ("home/button" ++ Button_key (selectedButton st))
               (message_of st now).

End Remote.

(* ===================================================================== *)
(** * The remote page for local files ([src/unnamed/part_002])            *)
(* ===================================================================== *)

Module FileRemote.
Import JS.

(** A [File] of the file input, with what [URL.createObjectURL(file)]
    and [await file.text()] give for it. *)
Record File : Type := {
  name : string;
  type : string;
  objectURL : string;
  text : string;
}.

(** ['image' | 'video' | 'text' | 'pdf'] *)
Inductive MediaKind : Type := kImage | kVideo | kText | kPdf.
Definition MediaKind_str (k : MediaKind) : string :=
  match k with
  | kImage => "image" | kVideo => "video" | kText => "text" | kPdf => "pdf"
  end.

Record Collected : Type := {
  mediaType : MediaKind;
  fileNames : list string;
  fileContents : list string;
}.

(** One round of the [for (const file of Array.from(files))] loop. *)
Definition collect (acc : Collected) (file : File) : Collected :=
  let '(kind, content) :=
    if Str.startsWith (type file) "image/" then (kImage, objectURL file)
    else if Str.startsWith (type file) "video/" then (kVideo, objectURL file)
    else if String.eqb (type file) "application/pdf" then (kPdf, objectURL file)
    else (kText, text file) in
  {| mediaType := kind;
     fileNames := fileNames acc ++ [name file];
     fileContents := fileContents acc ++ [content] |}.

Definition collectAll (files : list File) : Collected :=
  fold_left collect files
    {| mediaType := kText; fileNames := []; fileContents := [] |}.

(** [fileNames.join(',')] *)
Fixpoint join (l : list string) : string :=
  match l with
  | [] => ""
  | [s] => s
  | s :: rest => s ++ "," ++ join rest
  end.

Record State : Type := {
  isConnected : bool;
  connectionStatus : string;
  selectedButton : Button;
}.

(** The object literal [message] of [handleFileUpload]. *)
Definition message_of (st : State) (files : list File) (now : float) : JValue :=
  let c := collectAll files in
  JObj [ ("button", JStr (Button_key (selectedButton st)));
         ("fileName", JArr (map JStr (fileNames c)));
         ("fileContent", JArr (map JStr (fileContents c)));
         ("fileType", JStr (match files with f :: _ => type f | [] => "" end));
         ("mediaType", JStr (MediaKind_str (mediaType c)));
         ("timestamp", JNum now);
         ("isLocalFile", JBool true);
         ("filePath", JStr (join (fileNames c))) ].

Inductive Upload : Type :=
| Nothing
| Alert (text : string)
| Publish (topic : string) (message : JValue).


End FileRemote.

(* ===================================================================== *)
(** * The broker client ([src/lib/mqtt.ts], class [MQTTClient])           *)
(* ===================================================================== *)

Module Mqtt.
Import JS.

(** A [MessageCallback] is known by its identity (what [indexOf]
    compares); clients made by [mqtt.connect] and the promises made by
    [doConnect] are numbered in the order they are created. *)
Definition Callback : Type := nat.
Definition ClientId : Type := nat.
Definition PromiseId : Type := nat.

(** An [Error] object. *)
Record Error : Type := { message : string }.

Inductive Settled : Type :=
| Fulfilled
| Rejected (e : Error).

Record Options : Type := {
  clientId : string;
  clean : bool;
  reconnectPeriod : Z;
  connectTimeout : Z;
  keepalive : Z;
  username : option string;
  password : option string;
}.

Record Config : Type := {
  name : option string;
  url : option string;
  options : Options;
}.

(** The private fields of the class. *)
Record MQTTClient : Type := {
  client : option ClientId;
  isConnected : bool;
  currentBroker : option string;
  subscribers : gmap string (list Callback);
  connectPromise : option PromiseId;
}.

Definition new_MQTTClient : MQTTClient :=
  {| client := None; isConnected := false; currentBroker := Some "";
     subscribers := ∅; connectPromise := None |}.

(** Calls into the [mqtt] library and the timer API. *)
Inductive LibCall : Type :=
| mqtt_connect (url : option string) (opts : Options)
| setTimeout (c : ClientId) (ms : Z)
| clearTimeout (c : ClientId)
| client_end (c : ClientId) (force : bool)
| client_subscribe (c : ClientId) (topic : string) (qos : Z)
| client_publish (c : ClientId) (topic message : string) (qos : Z)
| client_unsubscribe (c : ClientId) (topic : string).

(** A client made by [mqtt.connect] inside [connectToBroker]: the
    [doConnect] call that made it, whether the promise of that
    [connectToBroker] call is still pending (the connection attempt is in
    flight), whether its timer is armed, and how many ['message']
    listeners [setupMessageHandler] has put on it. *)
Record ClientInfo : Type := {
  owner : PromiseId;
  config : Config;
  pending : bool;
  timer : bool;
  messageHandlers : nat;
}.

(** A call of [doConnect]: suspended at [await this.connectToBroker(config)]
    with the configurations still to try, or settled. *)
Inductive Run : Type :=
| Connecting (c : ClientId) (rest : list Config)
| Finished (r : Settled).

(** How a call of [connect()] returned. *)
Inductive Wait : Type :=
| Started (p : PromiseId)     (* made [connectPromise], awaits it *)
| Joined (p : PromiseId)      (* returned the [connectPromise] it found *)
| Immediate                   (* [Promise.resolve()] *).

(** A call of an [async] method, suspended at one of its [await]s, or
    settled. *)
Inductive Task : Type :=
| InConnect (w : Wait)
| SubscribeConnecting (w : Wait) (topic : string) (callback : Callback)
| SubscribeAcking (c : ClientId) (topic : string) (callback : Callback)
| PublishConnecting (w : Wait) (topic message : string)
| PublishAcking (c : ClientId) (topic message : string)
| Returned (r : Settled).

(** One invocation of a callback: [callback(messageStr, topic)]. *)
Record Delivery : Type := {
  d_callback : Callback;
  d_message : string;
  d_topic : string;
}.

(** The singleton with everything around it that its methods touch. *)
Record World : Type := {
  self : MQTTClient;
  runs : list Run;
  clients : list ClientInfo;
  tasks : list Task;
  calls : list LibCall;
  delivered : list Delivery;
  logs : list string;
}.

Definition initial : World :=
  {| self := new_MQTTClient; runs := []; clients := []; tasks := [];
     calls := []; delivered := []; logs := [] |}.

Definition with_self (w : World) (s : MQTTClient) : World :=
  {| self := s; runs := runs w; clients := clients w; tasks := tasks w;
     calls := calls w; delivered := delivered w; logs := logs w |}.
Definition with_runs (w : World) (r : list Run) : World :=
  {| self := self w; runs := r; clients := clients w; tasks := tasks w;
     calls := calls w; delivered := delivered w; logs := logs w |}.
Definition with_clients (w : World) (c : list ClientInfo) : World :=
  {| self := self w; runs := runs w; clients := c; tasks := tasks w;
     calls := calls w; delivered := delivered w; logs := logs w |}.
Definition with_tasks (w : World) (t : list Task) : World :=
  {| self := self w; runs := runs w; clients := clients w; tasks := t;
     calls := calls w; delivered := delivered w; logs := logs w |}.
Definition call (w : World) (c : LibCall) : World :=
  {| self := self w; runs := runs w; clients := clients w; tasks := tasks w;
     calls := calls w ++ [c]; delivered := delivered w; logs := logs w |}.
Definition deliver (w : World) (d : list Delivery) : World :=
  {| self := self w; runs := runs w; clients := clients w; tasks := tasks w;
     calls := calls w; delivered := delivered w ++ d; logs := logs w |}.
Definition log (w : World) (s : string) : World :=
  {| self := self w; runs := runs w; clients := clients w; tasks := tasks w;
     calls := calls w; delivered := delivered w; logs := logs w ++ [s] |}.

Definition set_client (s : MQTTClient) (c : ClientId) (broker : option string)
  : MQTTClient :=
  {| client := Some c; isConnected := isConnected s; currentBroker := broker;
     subscribers := subscribers s; connectPromise := connectPromise s |}.
Definition set_isConnected (s : MQTTClient) (b : bool) : MQTTClient :=
  {| client := client s; isConnected := b; currentBroker := currentBroker s;
     subscribers := subscribers s; connectPromise := connectPromise s |}.
Definition set_subscribers (s : MQTTClient) (m : gmap string (list Callback))
  : MQTTClient :=
  {| client := client s; isConnected := isConnected s;
     currentBroker := currentBroker s;
     subscribers := m; connectPromise := connectPromise s |}.
Definition set_connectPromise (s : MQTTClient) (p : option PromiseId)
  : MQTTClient :=
  {| client := client s; isConnected := isConnected s;
     currentBroker := currentBroker s;
     subscribers := subscribers s; connectPromise := p |}.

Definition set_pending (i : ClientInfo) (b : bool) : ClientInfo :=
  {| owner := owner i; config := config i; pending := b; timer := timer i;
     messageHandlers := messageHandlers i |}.
Definition set_timer (i : ClientInfo) (b : bool) : ClientInfo :=
  {| owner := owner i; config := config i; pending := pending i; timer := b;
     messageHandlers := messageHandlers i |}.
Definition add_messageHandler (i : ClientInfo) : ClientInfo :=
  {| owner := owner i; config := config i; pending := pending i;
     timer := timer i; messageHandlers := S (messageHandlers i) |}.

(** [`${x}`] for a string that may be [undefined]. *)
Definition template (s : option string) : string :=
  match s with Some x => x | None => "undefined" end.

Definition AllFailed : Error :=
  {| message := "All connection attempts failed" |}.
Definition NotConnected : Error := {| message := "MQTT client not connected" |}.
Definition TypeError : Error := {| message := "TypeError" |}.
Definition TimeoutError (cfg : Config) : Error :=
  {| message := "Timeout: " ++ template (name cfg) |}.

Definition Action_str (a : Action) : string :=
  match a with
  | play => "play" | pause => "pause"
  | seek_forward => "seek_forward" | seek_backward => "seek_backward"
  | zoom_in => "zoom_in" | zoom_out => "zoom_out" | zoom_reset => "zoom_reset"
  | move_up => "move_up" | move_down => "move_down"
  | move_left => "move_left" | move_right => "move_right"
  | move_reset => "move_reset" | scroll_stop => "scroll_stop"
  | scroll_speed_up => "scroll_speed_up"
  | scroll_speed_down => "scroll_speed_down"
  end.

(** [callbacks.indexOf(callback)] then [splice(index, 1)]: the first
    occurrence goes. *)
Fixpoint remove_first (cb : Callback) (l : list Callback) : list Callback :=
  match l with
  | [] => []
  | x :: rest => if Nat.eqb x cb then rest else x :: remove_first cb rest
  end.

(** What happens to the singleton. [Call_*]: a page calls a method (the
    step runs it up to its first [await]). [Resume t]: the continuation
    of the suspended call [t] runs, once what it awaits has settled.
    [On_*]: the library emits an event on a client, the timer of
    [connectToBroker] fires, or the library calls back for the
    [subscribe] or [publish] that call [t] is waiting on. *)
Inductive Event : Type :=
| Call_connect
| Call_subscribe (topic : string) (callback : Callback)
| Call_publish (topic message : string)
| Call_unsubscribe (topic : string) (callback : option Callback)
| Call_disconnect
| Call_publishButtonControl (activeButton : Button) (now : float)
| Call_publishMediaControl (b : Button) (a : Action) (v : option float)
    (now : float)
| Resume (t : nat)
| On_connect (c : ClientId)
| On_error (c : ClientId) (e : Error)
| On_timeout (c : ClientId)
| On_close (c : ClientId)
| On_offline (c : ClientId)
| On_message (c : ClientId) (topic : string) (payload : list Byte.byte)
| On_ack (t : nat) (error : option Error).

Section Client.
(** [process.env.NEXT_PUBLIC_MQTT_*], the [clientId] template string
    evaluated by the [n]-th call of [doConnect], [Buffer.toString()]
    and [JSON.stringify]. *)
Variables NEXT_PUBLIC_MQTT_BROKER_NAME NEXT_PUBLIC_MQTT_BROKER_URL
          NEXT_PUBLIC_MQTT_USERNAME NEXT_PUBLIC_MQTT_PASSWORD : option string.
Variable fresh_clientId : nat -> string.
Variable toString : list Byte.byte -> string.
Variable JSON_stringify : JValue -> string.

Definition configs (n : nat) : list Config :=
  [ {| name := NEXT_PUBLIC_MQTT_BROKER_NAME;
       url := NEXT_PUBLIC_MQTT_BROKER_URL;
       options :=
         {| clientId := fresh_clientId n;
            clean := true;
            reconnectPeriod := 0;
            connectTimeout := 10000;
            keepalive := 60;
            username := NEXT_PUBLIC_MQTT_USERNAME;
            password := NEXT_PUBLIC_MQTT_PASSWORD |} |} ].

(** [connectToBroker(config)], called by the [doConnect] call [p], up to
    the pending promise it returns: the client it makes. *)
Definition connectToBroker (w : World) (p : PromiseId) (cfg : Config)
  : ClientId * World :=
  let c := length (clients w) in
  let w := call w (mqtt_connect (url cfg) (options cfg)) in
  let w := with_self w (set_client (self w) c (name cfg)) in
  let w := call w (setTimeout c (connectTimeout (options cfg))) in
  (c, with_clients w
        (clients w ++ [ {| owner := p; config := cfg; pending := true;
                           timer := true; messageHandlers := 0 |} ])).

Definition setupMessageHandler (w : World) : World :=
  match client (self w) with
  | None => w
  | Some c => with_clients w (alter add_messageHandler c (clients w))
  end.

(** The [for (const config of configs)] loop of the [doConnect] call
    [p], entered with the configurations [todo], up to its next
    [await] or to the [throw] after the loop. *)
Definition attempt (w : World) (p : PromiseId) (todo : list Config)
  : Run * World :=
  match todo with
  | [] => (Finished (Rejected AllFailed), w)
  | cfg :: rest =>
      let '(c, w') := connectToBroker w p cfg in (Connecting c rest, w')
  end.

(** [doConnect()], up to its first [await]: the promise it returns. *)
Definition doConnect (w : World) : PromiseId * World :=
  let p := length (runs w) in
  let '(r, w') := attempt w p (configs p) in
  (p, with_runs w' (runs w' ++ [r])).

(** [connect()], up to its first [await] or its [return]. *)
Definition connect (w : World) : Wait * World :=
  match connectPromise (self w) with
  | Some p => (Joined p, w)
  | None =>
      if bool_decide (is_Some (client (self w))) && isConnected (self w)
      then (Immediate, w)
      else
        let '(p, w') := doConnect w in
        (Started p, with_self w' (set_connectPromise (self w') (Some p)))
  end.

(** [resolve()] in the ['connect'] listener of client [c]; if the
    promise was pending, [doConnect] goes on after its [await]:
    [setupMessageHandler(); return]. *)
Definition resolve (w : World) (c : ClientId) : World :=
  match clients w !! c with
  | Some info =>
      if pending info then
        let w := with_clients w (alter (fun i => set_pending i false) c (clients w)) in
        let w := setupMessageHandler w in
        with_runs w (<[owner info := Finished Fulfilled]> (runs w))
      else w
  | None => w
  end.

(** [reject(e)] in the ['error'] listener or in the timer of client
    [c]; if the promise was pending, [doConnect] goes on in its
    [catch]: it logs and [continue]s the loop. *)
Definition reject (w : World) (c : ClientId) (e : Error) : World :=
  match clients w !! c with
  | Some info =>
      if pending info then
        let w := with_clients w (alter (fun i => set_pending i false) c (clients w)) in
        let w := log w ("Failed to connect to " ++ template (name (config info))
                        ++ ": " ++ message e) in
        match runs w !! owner info with
        | Some (Connecting _ rest) =>
            let '(r, w') := attempt w (owner info) rest in
            with_runs w' (<[owner info := r]> (runs w'))
        | _ => w
        end
      else w
  | None => w
  end.

(** [this.client?.end(true)] *)
Definition end_client (w : World) : World :=
  match client (self w) with
  | Some c => call w (client_end c true)
  | None => w
  end.

Definition stop_timer (w : World) (c : ClientId) : World :=
  with_clients w (alter (fun i => set_timer i false) c (clients w)).

(** The ['message'] listener of [setupMessageHandler]. [forEach] calls the
    callbacks one after the other; a callback is taken to return, and not
    to call [subscribe], [unsubscribe] or [disconnect] while it runs (the
    callbacks of the pages catch what they throw and only set component
    state). *)
Definition on_message (w : World) (topic : string) (payload : list Byte.byte)
  : World :=
  match subscribers (self w) !! topic with
  | Some callbacks =>
      let messageStr := toString payload in
      deliver w (map (fun cb => {| d_callback := cb; d_message := messageStr;
                                   d_topic := topic |}) callbacks)
  | None => w
  end.

Definition set_task (w : World) (t : nat) (k : Task) : World :=
  with_tasks w (<[t := k]> (tasks w)).
Definition spawn (w : World) (k : Task) : World :=
  with_tasks w (tasks w ++ [k]).

(** Whether the promise a call of [connect()] returned has settled,
    and how. *)
Definition outcome (w : World) (x : Wait) : option Settled :=
  match x with
  | Immediate => Some Fulfilled
  | Started p | Joined p =>
      match runs w !! p with
      | Some (Finished r) => Some r
      | _ => None
      end
  end.

(** The [finally] of the [connect()] that made the promise. *)
Definition leave_connect (w : World) (x : Wait) : World :=
  match x with
  | Started _ => with_self w (set_connectPromise (self w) None)
  | _ => w
  end.

Definition connected_client (w : World) : option ClientId :=
  match client (self w) with
  | Some c => if isConnected (self w) then Some c else None
  | None => None
  end.

(** [subscribe] after [await this.connect()]. *)
Definition subscribe_connected (w : World) (t : nat) (topic : string)
    (callback : Callback) : World :=
  match connected_client w with
  | None => set_task w t (Returned (Rejected NotConnected))
  | Some c =>
      match subscribers (self w) !! topic with
      | None =>
          let w := with_self w (set_subscribers (self w)
                                  (<[topic := []]> (subscribers (self w)))) in
          let w := call w (client_subscribe c topic 0) in
          set_task w t (SubscribeAcking c topic callback)
      | Some callbacks =>
          let w := with_self w (set_subscribers (self w)
                     (<[topic := (callbacks ++ [callback])%list]> (subscribers (self w)))) in
          set_task w t (Returned Fulfilled)
      end
  end.

(** [subscribe] after the library has called back:
    [this.subscribers.get(topic)!.push(callback)]. *)
Definition subscribe_acked (w : World) (t : nat) (topic : string)
    (callback : Callback) (error : option Error) : World :=
  match error with
  | Some e => set_task w t (Returned (Rejected e))
  | None =>
      match subscribers (self w) !! topic with
      | Some callbacks =>
          let w := with_self w (set_subscribers (self w)
                     (<[topic := (callbacks ++ [callback])%list]> (subscribers (self w)))) in
          set_task w t (Returned Fulfilled)
      | None => set_task w t (Returned (Rejected TypeError))
      end
  end.

(** [publish] after [await this.connect()]. *)
Definition publish_connected (w : World) (t : nat) (topic message : string)
  : World :=
  match connected_client w with
  | None => set_task w t (Returned (Rejected NotConnected))
  | Some c =>
      set_task (call w (client_publish c topic message 0)) t
        (PublishAcking c topic message)
  end.

Definition unsubscribe (w : World) (topic : string) (callback : option Callback)
  : World :=
  match subscribers (self w) !! topic with
  | None => w
  | Some callbacks =>
      let callbacks' :=
        match callback with
        | Some cb => remove_first cb callbacks
        | None => []
        end in
      match callbacks' with
      | [] =>
          let w := with_self w (set_subscribers (self w)
                                  (delete topic (subscribers (self w)))) in
          match connected_client w with
          | Some c => call w (client_unsubscribe c topic)
          | None => w
          end
      | _ :: _ =>
          with_self w (set_subscribers (self w)
                         (<[topic := callbacks']> (subscribers (self w))))
      end
  end.

Definition disconnect (w : World) : World :=
  match client (self w) with
  | Some c =>
      let w := call w (client_end c true) in
      with_self w (set_subscribers (set_isConnected (self w) false) ∅)
  | None => w
  end.

(** [publish(topic, message)], up to [await this.connect()]. *)
Definition publish (w : World) (topic message : string) : World :=
  let '(x, w') := connect w in spawn w' (PublishConnecting x topic message).

(** [subscribe(topic, callback)], up to [await this.connect()]. *)
Definition subscribe (w : World) (topic : string) (callback : Callback) : World :=
  let '(x, w') := connect w in spawn w' (SubscribeConnecting x topic callback).

Definition ButtonControl_json (b : Button) (now : float) : JValue :=
  JObj [("activeButton", JStr (Button_key b)); ("timestamp", JNum now)].

(** [value] is left out by [JSON.stringify] when it is [undefined]. *)
Definition MediaControl_json (b : Button) (a : Action) (v : option float)
    (now : float) : JValue :=
  JObj ([("button", JStr (Button_key b)); ("action", JStr (Action_str a))]
        ++ match v with Some d => [("value", JNum d)] | None => [] end
        ++ [("timestamp", JNum now)]).

Definition resume (w : World) (t : nat) : option World :=
  match tasks w !! t with
  | Some (InConnect x) =>
      r ← outcome w x;
      Some (set_task (leave_connect w x) t (Returned r))
  | Some (SubscribeConnecting x topic callback) =>
      r ← outcome w x;
      let w := leave_connect w x in
      Some (match r with
            | Rejected e => set_task w t (Returned (Rejected e))
            | Fulfilled => subscribe_connected w t topic callback
            end)
  | Some (PublishConnecting x topic message) =>
      r ← outcome w x;
      let w := leave_connect w x in
      Some (match r with
            | Rejected e => set_task w t (Returned (Rejected e))
            | Fulfilled => publish_connected w t topic message
            end)
  | _ => None
  end.

Definition step (w : World) (ev : Event) : option World :=
  match ev with
  | Call_connect =>
      let '(x, w') := connect w in
      Some (spawn w' (match x with
                      | Immediate => Returned Fulfilled
                      | _ => InConnect x
                      end))
  | Call_subscribe topic callback => Some (subscribe w topic callback)
  | Call_publish topic message => Some (publish w topic message)
  | Call_unsubscribe topic callback => Some (unsubscribe w topic callback)
  | Call_disconnect => Some (disconnect w)
  | Call_publishButtonControl b now =>
      Some (publish w "home/buttonControl"
              (JSON_stringify (ButtonControl_json b now)))
  | Call_publishMediaControl b a v now =>
      Some (publish w "home/mediaControl"
              (JSON_stringify (MediaControl_json b a v now)))
  | Resume t => resume w t
  | On_connect c =>
      _ ← clients w !! c;
      let w := stop_timer (call w (clearTimeout c)) c in
      let w := with_self w (set_isConnected (self w) true) in
      Some (resolve w c)
  | On_error c e =>
      _ ← clients w !! c;
      let w := stop_timer (call w (clearTimeout c)) c in
      Some (reject (end_client w) c e)
  | On_timeout c =>
      info ← clients w !! c;
      if timer info then
        Some (reject (end_client (stop_timer w c)) c (TimeoutError (config info)))
      else None
  | On_close c | On_offline c =>
      _ ← clients w !! c;
      Some (with_self w (set_isConnected (self w) false))
  | On_message c topic payload =>
      info ← clients w !! c;
      Some (Nat.iter (messageHandlers info)
              (fun w => on_message w topic payload) w)
  | On_ack t error =>
      match tasks w !! t with
      | Some (SubscribeAcking _ topic callback) =>
          Some (subscribe_acked w t topic callback error)
      | Some (PublishAcking _ _ _) =>
          Some (set_task w t (Returned match error with
                                       | Some e => Rejected e
                                       | None => Fulfilled
                                       end))
      | _ => None
      end
  end.

Fixpoint exec (w : World) (evs : list Event) : option World :=
  match evs with
  | [] => Some w
  | ev :: rest =>
      match step w ev with
      | Some w' => exec w' rest
      | None => None
      end
  end.

(** The connection attempts in flight: the clients whose
    [connectToBroker] promise is pending. *)
Definition in_flight (w : World) : list ClientInfo :=
  filter (fun i => pending i = true) (clients w).

End Client.

End Mqtt.

(* ===================================================================== *)
(** * The values the reducer can reach                                    *)
(* ===================================================================== *)

Module Levels.
Import JS.

(** The three updates of [zoomLevel] and the two of [scrollSpeed], as the
    reducer computes them. *)
Definition zoomed_in (z : float) : float := Math_min (z * f1_25)%float f5.
Definition zoomed_out (z : float) : float := Math_max (z / f1_25)%float f0_1.
Definition sped_up (v : float) : float := Math_min (v + f10)%float f200.
Definition slowed_down (v : float) : float := Math_max (v - f10)%float f10.

Fixpoint mem (z : float) (l : list float) : bool :=
  match l with
  | [] => false
  | z' :: rest => PrimFloat.Leibniz.eqb z z' || mem z rest
  end.

(** The values reached from [todo] by the updates [next], by a worklist
    bounded by [fuel]. *)
Fixpoint closure (fuel : nat) (next : list (float -> float))
    (todo seen : list float) : list float :=
  match fuel with
  | O => seen
  | S fuel' =>
      match todo with
      | [] => seen
      | z :: rest =>
          if mem z seen then closure fuel' next rest seen
          else closure fuel' next (map (fun f => f z) next ++ rest)%list (z :: seen)
      end
  end.

(** Every [zoomLevel] reachable from the initial 1 (109 doubles). *)
Definition zoomLevels : list float :=
  Eval vm_compute in closure 1000 [zoomed_in; zoomed_out] [f1] [].

(** Every [scrollSpeed] reachable from the initial 50 (10, 20, ..., 200). *)
Definition scrollSpeeds : list float :=
  Eval vm_compute in closure 1000 [sped_up; slowed_down] [f50] [].

Definition within (lo hi z : float) : Prop :=
  (lo <=? z)%float = true /\ (z <=? hi)%float = true.

End Levels.

(* ===================================================================== *)
(** * The properties, and the instances they are tried on                 *)
(* ===================================================================== *)

Module PageProps.
Import JS Levels.

(** Both buttons hold reachable levels. *)
Definition levels_ok (s : Display.MediaStates) : Prop :=
  forall b, In (Display.zoomLevel (Display.at_button s b)) zoomLevels
            /\ In (Display.scrollSpeed (Display.at_button s b)) scrollSpeeds.

(** The entries of a button-to-media map are objects, as every
    [FileMessage] is. *)
Definition media_objects (m : gmap string JValue) : Prop :=
  forall k v, m !! k = Some v -> exists props, v = JObj props.

Definition shows_assigned (st : Display.State) : Prop :=
  Display.currentDisplay st
  = Display.buttonMedia st !! Button_key (Display.selectedButton st).

Definition page_ok (st : Display.State) : Prop :=
  media_objects (Display.buttonMedia st) /\ shows_assigned st.

Definition simple_shows_assigned (st : SimpleDisplay.State) : Prop :=
  SimpleDisplay.currentDisplay st
  = SimpleDisplay.buttonMedia st !! Button_key (SimpleDisplay.selectedButton st).

Definition simple_page_ok (st : SimpleDisplay.State) : Prop :=
  media_objects (SimpleDisplay.buttonMedia st) /\ simple_shows_assigned st.

(** ** Bad input *)

Definition button_topic (topic : string) : Prop :=
  topic = "home/buttonA" \/ topic = "home/buttonB".

(** One of [button], [fileContent], [fileType] is falsy. *)
Definition falsy_media (data : JValue) : Prop :=
  truthy (field data "button")
  && truthy (field data "fileContent")
  && truthy (field data "fileType") = false.

Definition bad_input (JSON_parse : string -> option JValue)
    (message topic : string) : Prop :=
  JSON_parse message = None
  \/ (button_topic topic
      /\ exists data, JSON_parse message = Some data /\ falsy_media data).

(** What the [catch] logs: something is thrown by [JSON.parse] on text
    that is not JSON, and by reading a field of [null]. *)
Definition caught (JSON_parse : string -> option JValue) (message : string)
  : list string :=
  match JSON_parse message with
  | None | Some JNull => ["Error parsing message:"]
  | Some _ => []
  end.

(** ** Instances *)

Definition sample_image : JValue :=
  JObj [ ("button", JStr "A"); ("fileName", JArr [JStr "cat.png"]);
         ("fileContent", JArr [JStr "blob:cat"]); ("fileType", JStr "image/png");
         ("mediaType", JStr "image") ].

Definition sample_media : gmap string JValue := <["A" := sample_image]> ∅.

Definition sample_state : Display.State :=
  Display.setButtonMedia Display.initialState sample_media.

(** A parser for the instances: it knows one message, an upload whose
    [fileContent] is empty. *)
Definition sample_parse (message : string) : option JValue :=
  if String.eqb message "{empty upload}" then
    Some (JObj [ ("button", JStr "A"); ("fileContent", JStr "");
                 ("fileType", JStr "image/png") ])
  else None.

Definition sample_remote : Remote.State :=
  {| Remote.isConnected := true; Remote.connectionStatus := "MQTT Connected";
     Remote.mediaUrl := "https://example.org/clips/intro.webm";
     Remote.selectedButton := B; Remote.mediaTypeSelection := Remote.auto |}.

End PageProps.

Module MqttProps.
Import JS Mqtt.

(** A call into the library that names a QoS names QoS 0. *)
Definition qos_zero (c : LibCall) : Prop :=
  match c with
  | client_subscribe _ _ q | client_publish _ _ _ q => q = 0%Z
  | _ => True
  end.

(** [w'] has the library calls of [w] and then some, all at QoS 0. *)
Definition extends (w w' : World) : Prop :=
  exists new, calls w' = (calls w ++ new)%list /\ Forall qos_zero new.

(** The promise a suspended call made itself and is awaiting. *)
Definition started (k : Task) : option PromiseId :=
  match k with
  | InConnect (Started p)
  | SubscribeConnecting (Started p) _ _
  | PublishConnecting (Started p) _ _ => Some p
  | _ => None
  end.

Definition started_by (x : Wait) : option PromiseId :=
  match x with Started p => Some p | _ => None end.

Definition wait_of (k : Task) : option Wait :=
  match k with
  | InConnect x | SubscribeConnecting x _ _ | PublishConnecting x _ _ => Some x
  | _ => None
  end.

(** The number of calls of [mqtt.connect] in a trace. *)
Fixpoint connects (l : list LibCall) : nat :=
  match l with
  | [] => 0
  | mqtt_connect _ _ :: rest => S (connects rest)
  | _ :: rest => connects rest
  end.

(** What holds of the singleton in every state it can reach. *)
Record Inv (w : World) : Prop := {
  (* the call that made [connectPromise] is the one call awaiting its own
     promise *)
  inv_started : forall t k p,
    tasks w !! t = Some k -> started k = Some p ->
    connectPromise (self w) = Some p;
  inv_started_once : forall t t' k k' p p',
    tasks w !! t = Some k -> started k = Some p ->
    tasks w !! t' = Some k' -> started k' = Some p' -> t = t';
  (* an unsettled [doConnect] is the one behind [connectPromise] *)
  inv_connecting : forall p c rest,
    runs w !! p = Some (Connecting c rest) -> connectPromise (self w) = Some p;
  (* a connection attempt in flight belongs to an unsettled [doConnect]
     with nothing left to try, on the current client, which has no
     ['message'] listener yet *)
  inv_pending : forall c info,
    clients w !! c = Some info -> pending info = true ->
    runs w !! owner info = Some (Connecting c [])
    /\ client (self w) = Some c /\ messageHandlers info = 0%nat;
  inv_handlers : forall c info,
    clients w !! c = Some info -> (messageHandlers info <= 1)%nat;
  (* every [doConnect] made one client by one [mqtt.connect] *)
  inv_clients : length (clients w) = length (runs w);
  inv_connects : connects (calls w) = length (runs w);
}.


(** ** Instances *)

Definition sample_stringify (v : JValue) : string := "{}".

Definition sample_exec : World -> list Event -> option World :=
  Mqtt.exec (Some "broker") (Some "wss://broker.example/mqtt") None None
    (fun n => "media_remote_0") string_of_list_byte sample_stringify.

Definition sample_step : World -> Event -> option World :=
  Mqtt.step (Some "broker") (Some "wss://broker.example/mqtt") None None
    (fun n => "media_remote_0") string_of_list_byte sample_stringify.

(** Two pages subscribe to one topic; the broker accepts the connection and
    acknowledges the subscription. *)
Definition two_subscribers : list Event :=
  [ Call_subscribe "home/buttonA" 7; Call_subscribe "home/buttonA" 8;
    On_connect 0; Resume 0; On_ack 0 None; Resume 1 ].

(** Two calls of [connect()] in a row. *)
Definition two_connects : list Event := [ Call_connect; Call_connect ].

Definition world_after (evs : list Event) : World :=
  default initial (sample_exec initial evs).



End MqttProps.

(** ** The remotes and what the displays make of their messages *)

Module RemoteProps.
Import JS.

(** The characters of a string. *)
Fixpoint chars (s : string) : list ascii :=
  match s with
  | EmptyString => []
  | String c s' => c :: chars s'
  end.


(** [s] is made of characters of [[a-zA-Z0-9_-]], and of one at least. *)
Definition is_id (s : string) : Prop :=
  s <> "" /\ Forall (fun c => Str.is_id_char c = true) (chars s).

(** The four shapes of what [processMediaUrl] returns. *)
Inductive Shape (url : string) : Remote.Processed -> Prop :=
| YouTubeEmbed (id : string) :
    is_id id ->
    Shape url
      {| Remote.processedUrl :=
           "https://www.youtube-nocookie.com/embed/" ++ id ++ "?autoplay=1&mute=1";
         Remote.fileType := "video/youtube"; Remote.mediaType := Remote.kVideo |}
| DriveImage (id : string) :
    is_id id ->
    Shape url
      {| Remote.processedUrl := "https://drive.google.com/uc?export=view&id=" ++ id;
         Remote.fileType := Remote.image_fileType url;
         Remote.mediaType := Remote.kImage |}
| DrivePreview (id : string) :
    is_id id ->
    Shape url
      {| Remote.processedUrl :=
           "https://drive.google.com/file/d/" ++ id ++ "/preview?autoplay=1";
         Remote.fileType := "video/mp4"; Remote.mediaType := Remote.kVideo |}
| PlainVideo :
    Shape url
      {| Remote.processedUrl := url; Remote.fileType := "video/mp4";
         Remote.mediaType := Remote.kVideo |}
| PlainImage :
    Shape url
      {| Remote.processedUrl := url; Remote.fileType := Remote.image_fileType url;
         Remote.mediaType := Remote.kImage |}
| Unrecognised :
    Shape url
      {| Remote.processedUrl := url; Remote.fileType := "image/jpeg";
         Remote.mediaType := Remote.kImage |}.

(** The branch the upload loop takes for a file: its kind, and what goes
    into [fileContents] for it. *)
Definition kind_of (file : FileRemote.File) : FileRemote.MediaKind :=
  if Str.startsWith (FileRemote.type file) "image/" then FileRemote.kImage
  else if Str.startsWith (FileRemote.type file) "video/" then FileRemote.kVideo
  else if String.eqb (FileRemote.type file) "application/pdf" then FileRemote.kPdf
  else FileRemote.kText.

Definition content_of (file : FileRemote.File) : string :=
  match kind_of file with
  | FileRemote.kText => FileRemote.text file
  | _ => FileRemote.objectURL file
  end.

(** One [<img>] of the display: [src] and [alt]. *)
Definition img_of (file : FileRemote.File) : Value * Value :=
  (Some (JStr (content_of file)), Some (JStr (FileRemote.name file))).

(** The page with playback control, showing [item]. *)
Definition showing (dst : Display.State) (item : JValue) : Display.State :=
  Display.setCurrentDisplay dst (Some item).

(** The page without playback control, showing [item]. *)
Definition simple_showing (dst : SimpleDisplay.State) (item : JValue)
  : SimpleDisplay.State :=
  {| SimpleDisplay.isConnected := SimpleDisplay.isConnected dst;
     SimpleDisplay.buttonMedia := SimpleDisplay.buttonMedia dst;
     SimpleDisplay.currentDisplay := Some item;
     SimpleDisplay.selectedButton := SimpleDisplay.selectedButton dst;
     SimpleDisplay.status := SimpleDisplay.status dst |}.

Definition sample_files : list FileRemote.File :=
  [ {| FileRemote.name := "notes.txt"; FileRemote.type := "text/plain";
       FileRemote.objectURL := "blob:1"; FileRemote.text := "hello" |};
    {| FileRemote.name := "cat.png"; FileRemote.type := "image/png";
       FileRemote.objectURL := "blob:2"; FileRemote.text := "" |} ].

Definition sample_file_remote : FileRemote.State :=
  {| FileRemote.isConnected := true; FileRemote.connectionStatus := "MQTT Connected";
     FileRemote.selectedButton := A |}.

Definition sample_url : string := "https://youtu.be/dQw4w9WgXcQ".

End RemoteProps.

(** ** The display page as a whole *)

Module ControlProps.
Import JS.





(** A payload the last branch of [handleMQTTMessage] accepts, for the
    button named [key]. *)
Definition accepted_upload (data : JValue) (key : string) : Prop :=
  field data "button" = Some (JStr key)
  /\ key <> ""
  /\ truthy (field data "fileContent") = true
  /\ truthy (field data "fileType") = true.

Definition media_topic (topic : string) : Prop :=
  topic <> "home/buttonControl" /\ topic <> "home/mediaControl".

Definition sample_upload : JValue :=
  JObj [ ("button", JStr "A"); ("fileName", JArr [JStr "cat.png"]);
         ("fileContent", JArr [JStr "blob:cat"]); ("fileType", JStr "image/png");
         ("mediaType", JStr "image") ].

Definition sample_upload_parse (message : string) : option JValue :=
  if String.eqb message "{cat}" then Some sample_upload else None.

Definition sample_control : JValue :=
  Mqtt.MediaControl_json B zoom_in None 0%float.

Definition sample_control_parse (message : string) : option JValue :=
  if String.eqb message "{zoom}" then Some sample_control else None.

Definition sample_button : JValue := Mqtt.ButtonControl_json B 0%float.

Definition sample_button_parse (message : string) : option JValue :=
  if String.eqb message "{button}" then Some sample_button else None.

Definition sample_files_parse (message : string) : option JValue :=
  if String.eqb message "{files}" then
    Some (FileRemote.message_of RemoteProps.sample_file_remote
            RemoteProps.sample_files 0%float)
  else None.

Definition sample_url_parse (message : string) : option JValue :=
  if String.eqb message "{url}" then
    Some (Remote.message_of PageProps.sample_remote 0%float)
  else None.


End ControlProps.

(** ** More of the broker client *)

Module ClientProps.
Import JS Mqtt.

(** [getCurrentBroker()] *)
Definition getCurrentBroker (w : World) : option string := currentBroker (self w).

(** How many times [callback] is registered for [topic]. *)
Definition registrations (w : World) (topic : string) (callback : Callback) : nat :=
  count_occ Nat.eq_dec (default [] (subscribers (self w) !! topic)) callback.

(** More of what holds of the singleton in every state it can reach, for
    the broker named [broker] in the environment. *)
Record Inv2 (broker : option string) (w : World) : Prop := {
  (* the timer of [connectToBroker] is armed exactly while its promise is
     pending *)
  inv_timer : forall c info, clients w !! c = Some info -> timer info = pending info;
  (* before the first attempt there is nothing *)
  inv_fresh : client (self w) = None ->
    clients w = [] /\ subscribers (self w) = ∅ /\ isConnected (self w) = false
    /\ currentBroker (self w) = Some "";
  (* afterwards the current client is the last one made, for the
     configured broker *)
  inv_current : forall c, client (self w) = Some c ->
    S c = length (clients w) /\ currentBroker (self w) = broker;
}.

(** The client a call into the library is made on, for the calls that
    need a connection. *)
Definition on_client (c : LibCall) : option ClientId :=
  match c with
  | client_subscribe c _ _ | client_publish c _ _ _ | client_unsubscribe c _ =>
      Some c
  | _ => None
  end.

(** [w'] has the library calls of [w] and then some, all of them [P]. *)
Definition extends_by (P : LibCall -> Prop) (w w' : World) : Prop :=
  exists new, calls w' = (calls w ++ new)%list /\ Forall P new.

(** A call that needs a connection is made on the client of [w], with [w]
    connected. *)
Definition on_connected (w : World) (c : LibCall) : Prop :=
  forall x, on_client c = Some x -> connected_client w = Some x.

(** What settling the attempt on client [c] does to the clients: the
    promise of [c] is no longer pending, and nothing else that the timers
    and the promises depend on has changed. *)
Definition settled (c : ClientId) (l l' : list ClientInfo) : Prop :=
  length l' = length l
  /\ forall c' i', l' !! c' = Some i' ->
       exists i, l !! c' = Some i /\ timer i' = timer i
                 /\ ((c' <> c /\ pending i' = pending i)
                     \/ (c' = c /\ pending i' = false)).

(** ** Instances *)

(** [connect()] on the new singleton, the broker accepting, and the call
    going on after its [await]. *)
Definition connected_once : list Event := [ Call_connect; On_connect 0; Resume 0 ].

Definition world_connected : World := MqttProps.world_after connected_once.

(** The library reports the connection of the attempt of [two_connects]. *)
Definition world_first_connected : World :=
  default initial
    (MqttProps.sample_step (MqttProps.world_after MqttProps.two_connects)
       (On_connect 0)).

Definition refused : Error := {| message := "Not authorized" |}.

End ClientProps.

(* ===================================================================== *)
(** * The definitions at work                                             *)
(* ===================================================================== *)

Module Examples.
Import JS.

Example zoom_in_from_1 :
  Levels.zoomed_in f1 = 1.25%float.
Proof. reflexivity. Qed.

Example zoom_in_is_capped :
  Levels.zoomed_in 4.76837158203125%float = f5.
Proof. reflexivity. Qed.

Example zoom_out_is_floored :
  Levels.zoomed_out 0x1.b7cdfd9d7bdbdp-4%float = f0_1.
Proof. reflexivity. Qed.

Example zoom_out_from_1 :
  Levels.zoomed_out f1 = 0x1.999999999999ap-1%float.
Proof. reflexivity. Qed.

Example zoomLevels_count : length Levels.zoomLevels = 109%nat.
Proof. reflexivity. Qed.

Example scrollSpeeds_count : length Levels.scrollSpeeds = 20%nat.
Proof. reflexivity. Qed.

Example min_of_zeros : Math_min 0%float (-0)%float = (-0)%float.
Proof. reflexivity. Qed.

Example youtube_url :
  Remote.processMediaUrl "https://www.youtube.com/watch?v=abc_123&t=4" Remote.auto
  = {| Remote.processedUrl :=
         "https://www.youtube-nocookie.com/embed/abc_123?autoplay=1&mute=1";
       Remote.fileType := "video/youtube"; Remote.mediaType := Remote.kVideo |}.
Proof. reflexivity. Qed.

Example drive_url_as_image :
  Remote.processMediaUrl "https://drive.google.com/file/d/FILEID/view" Remote.image
  = {| Remote.processedUrl := "https://drive.google.com/uc?export=view&id=FILEID";
       Remote.fileType := "image/jpeg"; Remote.mediaType := Remote.kImage |}.
Proof. reflexivity. Qed.

Example extension_keeps_its_case :
  Remote.processMediaUrl "https://example.org/a/cat.PNG" Remote.auto
  = {| Remote.processedUrl := "https://example.org/a/cat.PNG";
       Remote.fileType := ".PNG"; Remote.mediaType := Remote.kImage |}.
Proof. reflexivity. Qed.

Example fileName_of_folder : Remote.fileName_of "https://example.org/a/" = "media".
Proof. reflexivity. Qed.

Example unsubscribe_takes_first :
  Mqtt.remove_first 7 [8; 7; 9; 7]%nat = [8; 9; 7]%nat.
Proof. reflexivity. Qed.

Example late_ack_registers_last :
  Mqtt.subscribers
    (Mqtt.self
       (MqttProps.world_after
          [ Mqtt.Call_subscribe "home/buttonA" 7;
            Mqtt.Call_subscribe "home/buttonA" 8;
            Mqtt.On_connect 0; Mqtt.Resume 0; Mqtt.Resume 1;
            Mqtt.On_ack 0 None ]))
  !! "home/buttonA"
  = Some [8; 7]%nat.
Proof. vm_compute. reflexivity. Qed.

Example ill_typed_button :
  Display.step PageProps.sample_parse Display.initialState
    (Display.Incoming "{empty upload}" "home/buttonControl")
  = None.
Proof. reflexivity. Qed.

End Examples.

(* ===================================================================== *)
(** * Properties of the display reducer                                   *)
(* ===================================================================== *)

Module DisplayFacts.
Import JS Display Levels PageProps.

(** Finds a float in a list of float literals. *)
Ltac find_level :=
  lazymatch goal with
  | |- In _ _ => vm_compute; find_level
  | |- _ \/ _ => first [ left; reflexivity | right; find_level ]
  end.

Lemma zoomLevels_closed (z : float) :
  In z zoomLevels ->
  In (zoomed_in z) zoomLevels /\ In (zoomed_out z) zoomLevels
  /\ within f0_1 f5 z.
Proof.
  unfold zoomLevels. cbn [In]. intros H.
  repeat (destruct H as [<- | H];
          [ split; [ find_level | split; [ find_level | split; reflexivity ] ] | ]).
  contradiction.
Qed.

Lemma scrollSpeeds_closed (v : float) :
  In v scrollSpeeds ->
  In (sped_up v) scrollSpeeds /\ In (slowed_down v) scrollSpeeds
  /\ within f10 f200 v.
Proof.
  unfold scrollSpeeds. cbn [In]. intros H.
  repeat (destruct H as [<- | H];
          [ split; [ find_level | split; [ find_level | split; reflexivity ] ] | ]).
  contradiction.
Qed.

(** One control message moves a button's [zoomLevel] by one of the three
    updates, or not at all. *)
Lemma reduce_zoomLevel (prev : MediaStates) (c : Control) (b : Button) :
  let z := zoomLevel (at_button prev b) in
  let z' := zoomLevel (at_button (reduce prev c) b) in
  z' = z \/ z' = zoomed_in z \/ z' = zoomed_out z \/ z' = f1.
Proof.
  destruct c as [sel v r [mb a val ts]].
  destruct a, mb, b; cbn; auto.
Qed.

Lemma reduce_scrollSpeed (prev : MediaStates) (c : Control) (b : Button) :
  let v := scrollSpeed (at_button prev b) in
  let v' := scrollSpeed (at_button (reduce prev c) b) in
  v' = v \/ v' = sped_up v \/ v' = slowed_down v.
Proof.
  destruct c as [sel v r [mb a val ts]].
  destruct a, mb, b; cbn; auto.
Qed.

Lemma initial_levels_ok : levels_ok initialMediaStates.
Proof. intros []; split; cbn; unfold f1, f50; vm_compute; tauto. Qed.

Lemma reduce_levels_ok (prev : MediaStates) (c : Control) :
  levels_ok prev -> levels_ok (reduce prev c).
Proof.
  intros Hok b. destruct (Hok b) as [Hz Hv].
  destruct (zoomLevels_closed _ Hz) as (Hin & Hout & _).
  destruct (scrollSpeeds_closed _ Hv) as (Hup & Hdown & _).
  split.
  - destruct (reduce_zoomLevel prev c b) as [E | [E | [E | E]]];
      rewrite E; auto.
    destruct (initial_levels_ok A) as [H1 _]. exact H1.
  - destruct (reduce_scrollSpeed prev c b) as [E | [E | E]]; rewrite E; auto.
Qed.

Lemma fold_levels_ok (cs : list Control) (s : MediaStates) :
  levels_ok s -> levels_ok (fold_left reduce cs s).
Proof.
  revert s. induction cs as [| c cs IH]; intros s Hs; cbn; [ exact Hs | ].
  apply IH, reduce_levels_ok, Hs.
Qed.

Lemma reduceAll_levels_ok (cs : list Control) : levels_ok (reduceAll cs).
Proof. apply fold_levels_ok, initial_levels_ok. Qed.

(** C3. Starting from the initial [zoomLevel] 1 of both buttons, after any
    sequence of control messages the [zoomLevel] of each button lies in
    [0.1, 5]; and [zoom_in] sets the addressed button's level to
    [min(zoomLevel * 1.25, 5)], [zoom_out] to [max(zoomLevel / 1.25, 0.1)],
    [zoom_reset] to 1. *)
Theorem zoomLevel_bounded :
  (forall (cs : list Control) (b : Button),
      within f0_1 f5 (zoomLevel (at_button (reduceAll cs) b)))
  /\ (forall sel video raf b v t prev,
        zoomLevel (at_button
          (fst (handleMediaControlMessage sel video raf
                  {| button := b; action := zoom_in; value := v; timestamp := t |}
                  prev)) b)
        = Math_min (zoomLevel (at_button prev b) * f1_25)%float f5)
  /\ (forall sel video raf b v t prev,
        zoomLevel (at_button
          (fst (handleMediaControlMessage sel video raf
                  {| button := b; action := zoom_out; value := v; timestamp := t |}
                  prev)) b)
        = Math_max (zoomLevel (at_button prev b) / f1_25)%float f0_1)
  /\ (forall sel video raf b v t prev,
        zoomLevel (at_button
          (fst (handleMediaControlMessage sel video raf
                  {| button := b; action := zoom_reset; value := v; timestamp := t |}
                  prev)) b)
        = f1).
Proof.
  split; [ | repeat split; intros; destruct b; reflexivity ].
  intros cs b.
  destruct (reduceAll_levels_ok cs b) as [Hz _].
  apply (zoomLevels_closed _ Hz).
Qed.

(** C4. Starting from the initial [scrollSpeed] 50 of both buttons, after
    any sequence of control messages the [scrollSpeed] of each button lies
    in [10, 200]; and [scroll_speed_up] sets the addressed button's speed to
    [min(scrollSpeed + 10, 200)], [scroll_speed_down] to
    [max(scrollSpeed - 10, 10)]. *)
Theorem scrollSpeed_bounded :
  (forall (cs : list Control) (b : Button),
      within f10 f200 (scrollSpeed (at_button (reduceAll cs) b)))
  /\ (forall sel video raf b v t prev,
        scrollSpeed (at_button
          (fst (handleMediaControlMessage sel video raf
                  {| button := b; action := scroll_speed_up; value := v;
                     timestamp := t |} prev)) b)
        = Math_min (scrollSpeed (at_button prev b) + f10)%float f200)
  /\ (forall sel video raf b v t prev,
        scrollSpeed (at_button
          (fst (handleMediaControlMessage sel video raf
                  {| button := b; action := scroll_speed_down; value := v;
                     timestamp := t |} prev)) b)
        = Math_max (scrollSpeed (at_button prev b) - f10)%float f10).
Proof.
  split; [ | repeat split; intros; destruct b; reflexivity ].
  intros cs b.
  destruct (reduceAll_levels_ok cs b) as [_ Hv].
  apply (scrollSpeeds_closed _ Hv).
Qed.

(** C5. A media-control message addressed to one button leaves the
    [MediaState] of the other button as it was, whatever the action. *)
Theorem other_button_unchanged :
  forall (sel : Button) (video : bool) (raf : option positive)
         (m : MediaControlMessage) (prev : MediaStates),
    at_button (fst (handleMediaControlMessage sel video raf m prev))
              (other (button m))
    = at_button prev (other (button m)).
Proof.
  intros sel video raf [b a v t] prev.
  destruct a, b; reflexivity.
Qed.

End DisplayFacts.

(* ===================================================================== *)
(** * Properties of the display pages                                     *)
(* ===================================================================== *)

Module PageFacts.
Import JS PageProps.

Lemma media_objects_empty : media_objects ∅.
Proof. intros k v H. rewrite lookup_empty in H. discriminate. Qed.

Lemma media_objects_insert (m : gmap string JValue) k props :
  media_objects m -> media_objects (<[k := JObj props]> m).
Proof.
  intros Hm k' v. destruct (decide (k = k')) as [-> | Hne].
  - rewrite lookup_insert_eq. intros [= <-]. eauto.
  - rewrite lookup_insert_ne by done. apply Hm.
Qed.

(** A value with a truthy field is an object. *)
Lemma truthy_field_object (data : JValue) (k : string) (v : Value) :
  get (Some data) k = Normal v -> truthy v = true ->
  exists props, data = JObj props.
Proof.
  destruct data; cbn; intros [= <-]; try discriminate. eauto.
Qed.

(** ** The page with playback control *)
Section WithControl.
Import Display.
Variable JSON_parse : string -> option JValue.

Lemma displayEffect_shows (st : State) :
  media_objects (buttonMedia st) ->
  shows_assigned (fst (displayEffect st))
  /\ buttonMedia (fst (displayEffect st)) = buttonMedia st
  /\ selectedButton (fst (displayEffect st)) = selectedButton st.
Proof.
  intros Hm. unfold shows_assigned, displayEffect.
  destruct (buttonMedia st !! Button_key (selectedButton st)) as [item |] eqn:E.
  - destruct (Hm _ _ E) as [props ->]. cbn [truthy].
    destruct (is_str (mediaType_of (JObj props)) "image"); cbn; rewrite E; auto.
  - cbn. rewrite E. auto.
Qed.

(** What a handled message can have done to the three cells the display
    effect reads and writes. *)
Lemma handled_cells (st st' : State) message topic effects errors mediaSet :
  handleMQTTMessage JSON_parse st message topic
  = Done st' effects errors mediaSet ->
  currentDisplay st' = currentDisplay st
  /\ (media_objects (buttonMedia st) -> media_objects (buttonMedia st'))
  /\ (mediaSet = false -> buttonMedia st' = buttonMedia st).
Proof.
  unfold handleMQTTMessage, onButtonControl, onMediaControl, onMedia.
  intros H.
  repeat case_match; simplify_eq; cbn; auto.
  all: repeat split; auto; try discriminate.
  all: intros Hm; rewrite !andb_true_iff in *; destruct_and!.
  all: match goal with
       | Hg : get (Some ?d) "button" = Normal _, Ht : truthy _ = true |- _ =>
           destruct (truthy_field_object _ _ _ Hg Ht) as [props ->]
       end.
  all: by apply media_objects_insert.
Qed.

Lemma step_page_ok (st st' : State) (ev : Event) :
  page_ok st -> step JSON_parse st ev = Some st' -> page_ok st'.
Proof.
  intros [Hm Hs] Hstep. destruct ev; cbn in Hstep.
  - destruct (handleMQTTMessage JSON_parse st message topic)
      as [st1 effects errors mediaSet |] eqn:Hh; [ | discriminate ].
    destruct (handled_cells _ _ _ _ _ _ _ Hh) as (Hcur & Hobj & Hsame).
    destruct (mediaSet || negb (Button_eqb (selectedButton st) (selectedButton st1)))
      eqn:Hdeps; simplify_eq.
    + destruct (displayEffect_shows st1 (Hobj Hm)) as (H1 & H2 & H3).
      split; [ rewrite H2; auto | exact H1 ].
    + apply orb_false_iff in Hdeps as [-> Hsel].
      apply negb_false_iff in Hsel.
      split; [ auto | ].
      unfold shows_assigned in *. rewrite Hcur, Hsame by reflexivity.
      rewrite Hs. f_equal. f_equal.
      destruct (selectedButton st), (selectedButton st'); done.
  - simplify_eq. split; assumption.
  - simplify_eq. split; assumption.
  - simplify_eq. split; assumption.
  - simplify_eq. split; assumption.
  - simplify_eq. split; assumption.
Qed.

Lemma run_page_ok (evs : list Event) (st st' : State) :
  page_ok st -> run JSON_parse st evs = Some st' -> page_ok st'.
Proof.
  revert st. induction evs as [| ev evs IH]; intros st Hok Hrun; cbn in Hrun.
  - by simplify_eq.
  - destruct (step JSON_parse st ev) as [st1 |] eqn:Hstep; [ | discriminate ].
    eapply IH; [ eapply step_page_ok | ]; eauto.
Qed.

Lemma initial_page_ok : page_ok initialState.
Proof. split; [ apply media_objects_empty | reflexivity ]. Qed.
End WithControl.

(** ** The page without playback control *)
Section WithoutControl.
Import SimpleDisplay.
Variable JSON_parse : string -> option JValue.

Lemma simple_displayEffect_shows (st : State) :
  media_objects (buttonMedia st) ->
  simple_shows_assigned (displayEffect st)
  /\ buttonMedia (displayEffect st) = buttonMedia st
  /\ selectedButton (displayEffect st) = selectedButton st.
Proof.
  intros Hm. unfold simple_shows_assigned, displayEffect. cbn.
  destruct (buttonMedia st !! Button_key (selectedButton st)) as [item |] eqn:E;
    [ | auto ].
  destruct (Hm _ _ E) as [props ->]. auto.
Qed.

Lemma simple_handled_cells (st st' : State) message topic errors mediaSet :
  handleMQTTMessage JSON_parse st message topic = Done st' errors mediaSet ->
  currentDisplay st' = currentDisplay st
  /\ (media_objects (buttonMedia st) -> media_objects (buttonMedia st'))
  /\ (mediaSet = false -> buttonMedia st' = buttonMedia st).
Proof.
  unfold handleMQTTMessage. intros H.
  repeat case_match; simplify_eq; cbn; auto.
  repeat split; auto; try discriminate.
  intros Hm; rewrite !andb_true_iff in *; destruct_and!.
  match goal with
  | Hg : get (Some ?d) "button" = Normal _, Ht : truthy _ = true |- _ =>
      destruct (truthy_field_object _ _ _ Hg Ht) as [props ->]
  end.
  by apply media_objects_insert.
Qed.

Lemma simple_step_page_ok (st st' : State) message topic :
  simple_page_ok st -> step JSON_parse st message topic = Some st' ->
  simple_page_ok st'.
Proof.
  intros [Hm Hs] Hstep. unfold step in Hstep.
  destruct (handleMQTTMessage JSON_parse st message topic)
    as [st1 errors mediaSet |] eqn:Hh; [ | discriminate ].
  destruct (simple_handled_cells _ _ _ _ _ _ Hh) as (Hcur & Hobj & Hsame).
  destruct (mediaSet || negb (Button_eqb (selectedButton st) (selectedButton st1)))
    eqn:Hdeps; simplify_eq.
  - destruct (simple_displayEffect_shows st1 (Hobj Hm)) as (H1 & H2 & H3).
    split; [ rewrite H2; auto | exact H1 ].
  - apply orb_false_iff in Hdeps as [-> Hsel].
    apply negb_false_iff in Hsel.
    split; [ auto | ].
    unfold simple_shows_assigned in *. rewrite Hcur, Hsame by reflexivity.
    rewrite Hs. f_equal. f_equal.
    destruct (selectedButton st), (selectedButton st'); done.
Qed.

Lemma simple_run_page_ok (msgs : list (string * string)) (st st' : State) :
  simple_page_ok st -> run JSON_parse st msgs = Some st' -> simple_page_ok st'.
Proof.
  revert st. induction msgs as [| [message topic] msgs IH];
    intros st Hok Hrun; cbn in Hrun.
  - by simplify_eq.
  - destruct (step JSON_parse st message topic) as [st1 |] eqn:Hstep;
      [ | discriminate ].
    eapply IH; [ eapply simple_step_page_ok | ]; eauto.
Qed.

Lemma simple_initial_page_ok : simple_page_ok initialState.
Proof. split; [ apply media_objects_empty | reflexivity ]. Qed.
End WithoutControl.

(** ** Levels on the page *)







(** C6. Whatever the button-to-media map [m] holds and whichever button
    [b] is active, once the display effect has run the displayed item is
    the entry of [m] for [b], and the waiting screen is rendered when [m]
    has none; and after any sequence of events handled from the initial
    state the displayed item is the entry of the active button. Both for
    the page with playback control and for the one without. *)
Theorem display_shows_assigned_media
    (m : gmap string JValue) (b : Button) (Hm : media_objects m) :
  (forall st : Display.State,
      Display.buttonMedia st = m -> Display.selectedButton st = b ->
      let st' := fst (Display.displayEffect st) in
      Display.currentDisplay st' = m !! Button_key b
      /\ (m !! Button_key b = None ->
          Display.renderContent st' = Display.Waiting (Display.isConnected st) b))
  /\ (forall st : SimpleDisplay.State,
        SimpleDisplay.buttonMedia st = m -> SimpleDisplay.selectedButton st = b ->
        let st' := SimpleDisplay.displayEffect st in
        SimpleDisplay.currentDisplay st' = m !! Button_key b
        /\ (m !! Button_key b = None ->
            SimpleDisplay.renderContent st'
            = SimpleDisplay.Waiting (SimpleDisplay.isConnected st) b))
  /\ (forall JSON_parse evs st,
        Display.run JSON_parse Display.initialState evs = Some st ->
        Display.buttonMedia st = m -> Display.selectedButton st = b ->
        Display.currentDisplay st = m !! Button_key b)
  /\ (forall JSON_parse msgs st,
        SimpleDisplay.run JSON_parse SimpleDisplay.initialState msgs = Some st ->
        SimpleDisplay.buttonMedia st = m -> SimpleDisplay.selectedButton st = b ->
        SimpleDisplay.currentDisplay st = m !! Button_key b).
Proof.
  repeat split.
  - subst. destruct (displayEffect_shows st Hm) as (H1 & H2 & H3).
    unfold shows_assigned in H1. by rewrite H1, H2, H3.
  - intros Hnone. subst. unfold Display.displayEffect, Display.renderContent.
    rewrite Hnone. reflexivity.
  - subst. destruct (simple_displayEffect_shows st Hm) as (H1 & H2 & H3).
    unfold simple_shows_assigned in H1. by rewrite H1, H2, H3.
  - intros Hnone. subst.
    unfold SimpleDisplay.displayEffect, SimpleDisplay.renderContent. cbn.
    rewrite Hnone. reflexivity.
  - intros JSON_parse evs st Hrun <- <-.
    apply (run_page_ok JSON_parse evs _ _ (initial_page_ok) Hrun).
  - intros JSON_parse msgs st Hrun <- <-.
    apply (simple_run_page_ok JSON_parse msgs _ _ (simple_initial_page_ok) Hrun).
Qed.

(** C10. On a message that is not valid JSON, and on a parsed message on a
    button topic one of whose [button], [fileContent] and [fileType] is
    falsy, the handler of either display page leaves the whole state as
    it was: it calls no setter and has no effect besides what its [catch]
    logs, and the page after the event is the page before it. *)
Theorem bad_input_leaves_state
    (JSON_parse : string -> option JValue) (message topic : string) :
  bad_input JSON_parse message topic ->
  (forall st : Display.State,
      Display.handleMQTTMessage JSON_parse st message topic
      = Display.Done st [] (caught JSON_parse message) false
      /\ Display.step JSON_parse st (Display.Incoming message topic) = Some st)
  /\ (forall st : SimpleDisplay.State,
        SimpleDisplay.handleMQTTMessage JSON_parse st message topic
        = SimpleDisplay.Done st (caught JSON_parse message) false
        /\ SimpleDisplay.step JSON_parse st message topic = Some st).
Proof.
  intros Hbad.
  assert (forall st, Display.handleMQTTMessage JSON_parse st message topic
                     = Display.Done st [] (caught JSON_parse message) false) as HD.
  { intros st. unfold Display.handleMQTTMessage, caught.
    destruct Hbad as [-> | ([-> | ->] & data & -> & Hf)]; [ reflexivity | | ].
    all: cbn; unfold Display.onMedia; unfold falsy_media, field in Hf.
    all: destruct data; cbn in *; try reflexivity.
    all: rewrite Hf; reflexivity. }
  assert (forall st, SimpleDisplay.handleMQTTMessage JSON_parse st message topic
                     = SimpleDisplay.Done st (caught JSON_parse message) false) as HS.
  { intros st. unfold SimpleDisplay.handleMQTTMessage, caught.
    destruct Hbad as [-> | ([-> | ->] & data & -> & Hf)]; [ reflexivity | | ].
    all: cbn; unfold falsy_media, field in Hf.
    all: destruct data; cbn in *; try reflexivity.
    all: rewrite Hf; reflexivity. }
  split; intros st; (split; [ auto | ]).
  - cbn. rewrite HD. cbn. by destruct (Display.selectedButton st).
  - unfold SimpleDisplay.step. rewrite HS. cbn.
    by destruct (SimpleDisplay.selectedButton st).
Qed.

(** An instance of C6: button A is active and holds an image. *)
Lemma display_shows_assigned_media_witness :
  Display.currentDisplay (fst (Display.displayEffect sample_state))
  = sample_media !! "A".
Proof.
  exact (proj1 (proj1 (display_shows_assigned_media sample_media A
                         (media_objects_insert ∅ "A" _ media_objects_empty))
                  sample_state eq_refl eq_refl)).
Defined.

(** An instance of C10: an upload with an empty [fileContent]. *)
Lemma bad_input_leaves_state_witness :
  Display.step sample_parse sample_state
    (Display.Incoming "{empty upload}" "home/buttonA")
  = Some sample_state.
Proof.
  refine (proj2 (proj1 (bad_input_leaves_state sample_parse
                          "{empty upload}" "home/buttonA" _) sample_state)).
  right. split; [ left; reflexivity | ].
  eexists. split; reflexivity.
Defined.

End PageFacts.

(* ===================================================================== *)
(** * The payloads of the two remote pages                                *)
(* ===================================================================== *)

Module ShapeFacts.
Import JS PageProps.






End ShapeFacts.

(* ===================================================================== *)
(** * Properties of the broker client                                     *)
(* ===================================================================== *)

Module MqttFacts.
Import JS Mqtt MqttProps.

Lemma extends_refl (w : World) : extends w w.
Proof. exists []. split; [ by rewrite app_nil_r | constructor ]. Qed.

Lemma extends_trans (w1 w2 w3 : World) :
  extends w1 w2 -> extends w2 w3 -> extends w1 w3.
Proof.
  intros (n1 & E1 & F1) (n2 & E2 & F2). exists (n1 ++ n2)%list.
  split; [ by rewrite E2, E1, app_assoc | by apply Forall_app ].
Qed.

Lemma extends_same_calls (w w' : World) : calls w' = calls w -> extends w w'.
Proof. intros E. exists []. split; [ by rewrite app_nil_r | constructor ]. Qed.

Lemma extends_call (w : World) (c : LibCall) : qos_zero c -> extends w (call w c).
Proof. intros Hc. exists [c]. split; [ reflexivity | by repeat constructor ]. Qed.

Create HintDb mqtt.
#[local] Hint Resolve extends_refl extends_call : mqtt.
#[local] Hint Extern 2 (extends _ _) =>
  (apply extends_same_calls; reflexivity) : mqtt.
#[local] Hint Extern 1 (qos_zero _) => exact I : mqtt.
#[local] Hint Extern 1 (qos_zero _) => reflexivity : mqtt.

Lemma connects_app (l1 l2 : list LibCall) :
  connects (l1 ++ l2) = (connects l1 + connects l2)%nat.
Proof. induction l1 as [| [] l1 IH]; cbn; auto. Qed.

#[local] Arguments in_flight : simpl never.

(** Closes [extends w w'] when [w'] is [w] after some calls and field
    updates. *)
Ltac extends_tac :=
  first [ apply extends_same_calls; reflexivity
        | eexists; split;
          [ cbn; rewrite <- ?app_assoc; reflexivity
          | repeat constructor; done ] ].

Section Facts.
Variables NAME URL USERNAME PASSWORD : option string.
Variable fresh_clientId : nat -> string.
Variable toString : list Byte.byte -> string.
Variable JSON_stringify : JValue -> string.

Abbreviation connect := (Mqtt.connect NAME URL USERNAME PASSWORD fresh_clientId).
Abbreviation doConnect := (Mqtt.doConnect NAME URL USERNAME PASSWORD fresh_clientId).
Abbreviation configs := (Mqtt.configs NAME URL USERNAME PASSWORD fresh_clientId).
Abbreviation subscribe := (Mqtt.subscribe NAME URL USERNAME PASSWORD fresh_clientId).
Abbreviation publish := (Mqtt.publish NAME URL USERNAME PASSWORD fresh_clientId).
Abbreviation step :=
  (Mqtt.step NAME URL USERNAME PASSWORD fresh_clientId toString JSON_stringify).
Abbreviation exec :=
  (Mqtt.exec NAME URL USERNAME PASSWORD fresh_clientId toString JSON_stringify).

Lemma connectToBroker_extends w p cfg :
  extends w (snd (connectToBroker w p cfg)).
Proof.
  exists [mqtt_connect (url cfg) (options cfg);
          setTimeout (length (clients w)) (connectTimeout (options cfg))].
  split; [ cbn; by rewrite <- app_assoc | by repeat constructor ].
Qed.

Lemma attempt_extends w p todo : extends w (snd (attempt w p todo)).
Proof.
  destruct todo as [| cfg rest]; [ apply extends_refl | ].
  apply (connectToBroker_extends w p cfg).
Qed.

Lemma doConnect_extends w : extends w (snd (doConnect w)).
Proof.
  unfold Mqtt.doConnect.
  pose proof (attempt_extends w (length (runs w)) (configs (length (runs w)))) as H.
  destruct (attempt w (length (runs w)) (configs (length (runs w)))) as [r w1].
  cbn in *. eapply extends_trans; [ exact H | auto with mqtt ].
Qed.

Lemma connect_extends w : extends w (snd (connect w)).
Proof.
  unfold Mqtt.connect.
  destruct (connectPromise (self w)); [ apply extends_refl | ].
  case_match; [ apply extends_refl | ].
  pose proof (doConnect_extends w) as Hd.
  destruct (doConnect w) as [p w1]. cbn in *.
  eapply extends_trans; [ exact Hd | auto with mqtt ].
Qed.

Lemma reject_extends w c e : extends w (reject w c e).
Proof.
  unfold reject. repeat case_match; auto with mqtt.
  simplify_eq.
  match goal with
  | H : attempt ?w0 ?p ?rest = (_, ?w1) |- _ =>
      pose proof (attempt_extends w0 p rest) as He; rewrite H in He; cbn in He
  end.
  eapply extends_trans; [ | eapply extends_trans; [ exact He | ] ];
    auto with mqtt.
Qed.

Lemma resolve_extends w c : extends w (resolve w c).
Proof.
  unfold resolve, setupMessageHandler. repeat case_match; auto with mqtt.
Qed.

Lemma on_message_extends w topic payload n :
  extends w (Nat.iter n (fun w => on_message toString w topic payload) w).
Proof.
  induction n as [| n IH]; cbn; [ apply extends_refl | ].
  eapply extends_trans; [ exact IH | ].
  unfold on_message. case_match; auto with mqtt.
Qed.

Lemma spawn_connect_extends w (k : Wait -> Task) :
  extends w (spawn (snd (connect w)) (k (fst (connect w)))).
Proof.
  eapply extends_trans; [ apply connect_extends | extends_tac ].
Qed.

Lemma end_client_extends w : extends w (end_client w).
Proof. unfold end_client. case_match; extends_tac. Qed.

Lemma step_extends w w' ev : step w ev = Some w' -> extends w w'.
Proof.
  destruct ev as [ | topic cb | topic msg | topic ocb | | btn now | btn a v now
                | t | c | c e | c | c | c | c topic payload | t err ];
    cbn; intros H.
  - pose proof (spawn_connect_extends w
                  (fun x => match x with Immediate => Returned Fulfilled
                                    | _ => InConnect x end)) as He.
    destruct (connect w) as [x w1]. by simplify_eq.
  - unfold Mqtt.subscribe in H.
    pose proof (spawn_connect_extends w
                  (fun x => SubscribeConnecting x topic cb)) as He.
    destruct (connect w) as [x w1]. by simplify_eq.
  - unfold Mqtt.publish in H.
    pose proof (spawn_connect_extends w
                  (fun x => PublishConnecting x topic msg)) as He.
    destruct (connect w) as [x w1]. by simplify_eq.
  - simplify_eq. unfold unsubscribe, connected_client.
    repeat case_match; cbn; extends_tac.
  - simplify_eq. unfold disconnect. case_match; extends_tac.
  - unfold Mqtt.publish in H.
    pose proof (spawn_connect_extends w
                  (fun x => PublishConnecting x "home/buttonControl"
                              (JSON_stringify (ButtonControl_json btn now))))
      as He.
    destruct (connect w) as [x w1]. by simplify_eq.
  - unfold Mqtt.publish in H.
    pose proof (spawn_connect_extends w
                  (fun x => PublishConnecting x "home/mediaControl"
                              (JSON_stringify (MediaControl_json btn a v now))))
      as He.
    destruct (connect w) as [x w1]. by simplify_eq.
  - unfold resume, subscribe_connected, publish_connected, connected_client,
      leave_connect in H.
    repeat case_match; simplify_option_eq; repeat case_match; extends_tac.
  - destruct (clients w !! c); simplify_option_eq.
    eapply extends_trans; [ | apply resolve_extends ]. extends_tac.
  - destruct (clients w !! c); simplify_option_eq.
    eapply extends_trans; [ | apply reject_extends ].
    eapply extends_trans; [ | apply end_client_extends ]. extends_tac.
  - destruct (clients w !! c) as [info |]; [ | discriminate ]; cbn in H.
    destruct (timer info); simplify_eq.
    eapply extends_trans; [ | apply reject_extends ].
    eapply extends_trans; [ | apply end_client_extends ]. extends_tac.
  - destruct (clients w !! c); simplify_option_eq. extends_tac.
  - destruct (clients w !! c); simplify_option_eq. extends_tac.
  - destruct (clients w !! c); simplify_option_eq. apply on_message_extends.
  - unfold subscribe_acked in H.
    repeat case_match; simplify_eq; extends_tac.
Qed.

Lemma exec_extends evs w w' : exec w evs = Some w' -> extends w w'.
Proof.
  revert w. induction evs as [| ev evs IH]; cbn; intros w H.
  - simplify_eq. apply extends_refl.
  - destruct (step w ev) as [w1 |] eqn:Hs; [ | discriminate ].
    eapply extends_trans; [ eapply step_extends | ]; eauto.
Qed.

(** ** The invariant *)

Lemma inv_initial : Inv initial.
Proof.
  split; cbn; try done.
Qed.

(** A step that leaves the promise, the client, the runs, the clients, the
    suspended calls and the number of [mqtt.connect] calls alone. *)
Lemma inv_frame (w w' : World) :
  connectPromise (self w') = connectPromise (self w) ->
  client (self w') = client (self w) ->
  runs w' = runs w -> clients w' = clients w -> tasks w' = tasks w ->
  connects (calls w') = connects (calls w) ->
  Inv w -> Inv w'.
Proof.
  intros E1 E2 E3 E4 E5 E6 [].
  split; rewrite ?E1, ?E2, ?E3, ?E4, ?E5, ?E6; assumption.
Qed.

Lemma lookup_alter_inv {T} (f : T -> T) (l : list T) (i j : nat) (y : T) :
  alter f i l !! j = Some y ->
  exists x, l !! j = Some x /\ ((i <> j /\ y = x) \/ (i = j /\ y = f x)).
Proof.
  destruct (decide (i = j)) as [<- | Hne].
  - rewrite list_lookup_alter_eq. destruct (l !! i); cbn; intros [= <-]; eauto.
  - rewrite list_lookup_alter_ne by done. eauto.
Qed.

Lemma lookup_alter_here {T} (f : T -> T) (l : list T) (i : nat) (x : T) :
  l !! i = Some x -> alter f i l !! i = Some (f x).
Proof. intros H. by rewrite list_lookup_alter_eq, H. Qed.

Lemma inv_stop_timer (w : World) (c : ClientId) : Inv w -> Inv (stop_timer w c).
Proof.
  intros []. split; cbn; try assumption.
  - intros c' info Hl.
    apply lookup_alter_inv in Hl as (i & Hi & [(_ & ->) | (_ & ->)]); cbn; eauto.
  - intros c' info Hl.
    apply lookup_alter_inv in Hl as (i & Hi & [(_ & ->) | (_ & ->)]); cbn; eauto.
  - by rewrite length_alter.
Qed.

(** A call settles or moves on to an [await] that is not on its own
    promise. *)
Lemma inv_set_task (w : World) (t : nat) (k : Task) :
  started k = None -> Inv w -> Inv (set_task w t k).
Proof.
  intros Hk []. split; cbn; try assumption.
  - intros t' k' p Hl Hs.
    destruct (decide (t = t')) as [<- | Hne].
    + apply list_lookup_insert_Some in Hl as [(_ & <- & _) | (? & _)]; congruence.
    + rewrite list_lookup_insert_ne in Hl by done. eauto.
  - intros t1 t2 k1 k2 p1 p2 Hl1 Hs1 Hl2 Hs2.
    destruct (decide (t = t1)) as [<- | Hne1].
    { apply list_lookup_insert_Some in Hl1 as [(_ & <- & _) | (? & _)]; congruence. }
    destruct (decide (t = t2)) as [<- | Hne2].
    { apply list_lookup_insert_Some in Hl2 as [(_ & <- & _) | (? & _)]; congruence. }
    rewrite list_lookup_insert_ne in Hl1, Hl2 by done. eauto.
Qed.

Lemma inv_spawn (w : World) (k : Task) :
  started k = None -> Inv w -> Inv (spawn w k).
Proof.
  intros Hk []. split; cbn; try assumption.
  - intros t' k' p Hl Hs.
    apply lookup_app_Some in Hl as [Hl | [_ Hl]]; [ by eauto | ].
    apply list_lookup_singleton_Some in Hl as [_ <-]. congruence.
  - intros t1 t2 k1 k2 p1 p2 Hl1 Hs1 Hl2 Hs2.
    apply lookup_app_Some in Hl1 as [Hl1 | [_ Hl1]];
      [ | apply list_lookup_singleton_Some in Hl1 as [_ <-]; congruence ].
    apply lookup_app_Some in Hl2 as [Hl2 | [_ Hl2]];
      [ | apply list_lookup_singleton_Some in Hl2 as [_ <-]; congruence ].
    eauto.
Qed.

Lemma lookup_snoc_inv {T} (l : list T) (x y : T) (i : nat) :
  (l ++ [x])%list !! i = Some y ->
  l !! i = Some y \/ (i = length l /\ y = x).
Proof.
  intros H. apply lookup_app_Some in H as [H | [Hge H]]; [ by left | right ].
  apply list_lookup_singleton_Some in H as [Hi <-]. split; [ lia | done ].
Qed.

(** [connect()] followed by the caller suspending on what it returned. *)
Lemma inv_connect (w w' : World) (x : Wait) (k : Task) :
  Inv w -> connect w = (x, w') -> started k = started_by x -> Inv (spawn w' k).
Proof.
  intros HI Hc Hk. unfold Mqtt.connect in Hc.
  destruct (connectPromise (self w)) as [p |] eqn:Hp.
  { simplify_eq. by apply inv_spawn. }
  destruct (bool_decide (is_Some (client (self w))) && isConnected (self w)).
  { simplify_eq. by apply inv_spawn. }
  cbn in Hc. simplify_eq. cbn in Hk.
  destruct HI. split; cbn.
  - intros t k' p Hl Hs.
    apply lookup_snoc_inv in Hl as [Hl | [_ ->]]; [ | congruence ].
    specialize (inv_started0 _ _ _ Hl Hs). congruence.
  - intros t1 t2 k1 k2 p1 p2 Hl1 Hs1 Hl2 Hs2.
    apply lookup_snoc_inv in Hl1 as [Hl1 | [-> ->]].
    { specialize (inv_started0 _ _ _ Hl1 Hs1). congruence. }
    apply lookup_snoc_inv in Hl2 as [Hl2 | [-> ->]]; [ | done ].
    specialize (inv_started0 _ _ _ Hl2 Hs2). congruence.
  - intros p c rest Hl.
    apply lookup_snoc_inv in Hl as [Hl | [-> _]]; [ | done ].
    specialize (inv_connecting0 _ _ _ Hl). congruence.
  - intros c info Hl Hpend.
    apply lookup_snoc_inv in Hl as [Hl | [-> ->]].
    + destruct (inv_pending0 _ _ Hl Hpend) as (Hrun & _).
      specialize (inv_connecting0 _ _ _ Hrun). congruence.
    + cbn. rewrite inv_clients0.
      split; [ | done ]. by rewrite list_lookup_middle.
  - intros c info Hl.
    apply lookup_snoc_inv in Hl as [Hl | [-> ->]]; [ by eauto | cbn; lia ].
  - rewrite !length_app. cbn. lia.
  - rewrite !connects_app, length_app. cbn. lia.
Qed.

(** The ['connect'] listener settling the attempt. *)
Lemma inv_resolve (w : World) (c : ClientId) : Inv w -> Inv (resolve w c).
Proof.
  intros HI. unfold resolve.
  destruct (clients w !! c) as [info |] eqn:Hc; [ | done ].
  destruct (pending info) eqn:Hpend; [ | done ].
  destruct (inv_pending _ HI _ _ Hc Hpend) as (Hrun & Hcur & Hnone).
  unfold setupMessageHandler. cbn. rewrite Hcur.
  destruct HI. split; cbn; try assumption.
  - intros p c' rest Hl.
    apply list_lookup_insert_Some in Hl as [(_ & [=] & _) | (_ & Hl)]. eauto.
  - intros c' info' Hl Hp'.
    apply lookup_alter_inv in Hl as (i1 & Hl & Hcase).
    apply lookup_alter_inv in Hl as (i0 & Hl & Hcase0).
    destruct Hcase0 as [(Hne & ->) | (<- & ->)];
      destruct Hcase as [(Hne' & ->) | (Heq & ->)]; cbn in Hp'; try done.
    destruct (inv_pending0 _ _ Hl Hp') as (Hrun' & Hcur' & Hnone').
    congruence.
  - intros c' info' Hl.
    apply lookup_alter_inv in Hl as (i1 & Hl & Hcase).
    apply lookup_alter_inv in Hl as (i0 & Hl & Hcase0).
    destruct Hcase0 as [(Hne & ->) | (<- & ->)];
      destruct Hcase as [(Hne' & ->) | (Heq & ->)]; cbn; try done; eauto.
    pose proof (eq_trans (eq_sym Hl) Hc) as [= ->]. rewrite Hnone. lia.
  - by rewrite !length_alter, length_insert.
  - by rewrite length_insert.
Qed.

(** The ['error'] listener or the timer settling the attempt. *)
Lemma inv_reject (w : World) (c : ClientId) (e : Error) : Inv w -> Inv (reject w c e).
Proof.
  intros HI. unfold reject.
  destruct (clients w !! c) as [info |] eqn:Hc; [ | done ].
  destruct (pending info) eqn:Hpend; [ | done ].
  destruct (inv_pending _ HI _ _ Hc Hpend) as (Hrun & Hcur & Hnone).
  cbn. rewrite Hrun. cbn.
  destruct HI. split; cbn; try assumption.
  - intros p c' rest Hl.
    apply list_lookup_insert_Some in Hl as [(_ & [=] & _) | (_ & Hl)]. eauto.
  - intros c' info' Hl Hp'.
    apply lookup_alter_inv in Hl as (i0 & Hl & Hcase0).
    destruct Hcase0 as [(Hne & ->) | (<- & ->)]; cbn in Hp'; try done.
    destruct (inv_pending0 _ _ Hl Hp') as (Hrun' & Hcur' & Hnone').
    congruence.
  - intros c' info' Hl.
    apply lookup_alter_inv in Hl as (i0 & Hl & Hcase0).
    destruct Hcase0 as [(Hne & ->) | (<- & ->)]; cbn; eauto.
  - by rewrite !length_alter, length_insert.
  - by rewrite length_insert.
Qed.

Lemma started_wait_of (k : Task) (x : Wait) :
  wait_of k = Some x -> started k = started_by x.
Proof. destruct k as [[] | [] | | [] | |]; cbn; intros; by simplify_eq. Qed.

(** A call goes on after [await this.connect()]: the [finally] of a
    [connect()] that made the promise clears [connectPromise], and the call
    [t] settles or suspends on the library. [w1] is [leave_connect w x] up
    to fields the invariant does not read. *)
Lemma inv_leave (w w1 : World) (t : nat) (k0 k : Task) (x : Wait) (r : Settled) :
  Inv w -> tasks w !! t = Some k0 -> wait_of k0 = Some x ->
  outcome w x = Some r -> started k = None ->
  connectPromise (self w1) = connectPromise (self (leave_connect w x)) ->
  client (self w1) = client (self w) ->
  runs w1 = runs w -> clients w1 = clients w -> tasks w1 = tasks w ->
  connects (calls w1) = connects (calls w) ->
  Inv (set_task w1 t k).
Proof.
  intros HI Ht Hx Hout Hk E1 E2 E3 E4 E5 E6.
  apply started_wait_of in Hx.
  destruct x as [p | p |]; cbn in *.
  2,3: apply inv_set_task; [ done | ];
       by apply (inv_frame w w1).
  destruct (runs w !! p) as [[| r'] |] eqn:Hrun; simplify_eq.
  destruct HI. split; cbn; rewrite ?E1, ?E2, ?E3, ?E4, ?E5, ?E6; try assumption.
  - intros t' k' p' Hl Hs.
    apply list_lookup_insert_Some in Hl as [(_ & <- & _) | (Hne & Hl)];
      [ congruence | ].
    destruct Hne. eapply inv_started_once0; eauto.
  - intros t1 t2 k1 k2 p1 p2 Hl1 Hs1 Hl2 Hs2.
    apply list_lookup_insert_Some in Hl1 as [(_ & <- & _) | (Hne & Hl1)];
      [ congruence | ].
    destruct Hne. eapply inv_started_once0; eauto.
  - intros p' c rest Hl. pose proof (inv_connecting0 _ _ _ Hl) as Hp'.
    pose proof (inv_started0 _ _ _ Ht Hx) as Hp. congruence.
Qed.

Lemma inv_resume (w w' : World) (t : nat) :
  Inv w -> resume w t = Some w' -> Inv w'.
Proof.
  intros HI Hr. unfold resume in Hr.
  destruct (tasks w !! t) as [k0 |] eqn:Ht; [ | done ].
  destruct k0 as [x | x topic cb | | x topic msg | |]; try done.
  - destruct (outcome w x) as [r |] eqn:Hout; [ | done ]. cbn in Hr. simplify_eq.
    eapply (inv_leave w); eauto; by destruct x.
  - destruct (outcome w x) as [r |] eqn:Hout; [ | done ]. cbn in Hr. simplify_eq.
    unfold subscribe_connected, connected_client.
    repeat case_match; eapply (inv_leave w); eauto;
      destruct x; cbn; rewrite ?connects_app; cbn; first [ done | lia ].
  - destruct (outcome w x) as [r |] eqn:Hout; [ | done ]. cbn in Hr. simplify_eq.
    unfold publish_connected, connected_client.
    repeat case_match; eapply (inv_leave w); eauto;
      destruct x; cbn; rewrite ?connects_app; cbn; first [ done | lia ].
Qed.

(** Closes [Inv w'] from [HI : Inv w] when [w'] is [w] after calls other
    than [mqtt.connect] and updates of fields the invariant does not read. *)
Ltac frame_tac HI :=
  eapply inv_frame; [ .. | exact HI ];
  cbn; rewrite ?connects_app; cbn; first [ done | lia ].

Lemma inv_on_message (w : World) topic payload (n : nat) :
  Inv w -> Inv (Nat.iter n (fun w => on_message toString w topic payload) w).
Proof.
  intros HI. induction n as [| n IH]; cbn; [ done | ].
  unfold on_message. case_match; [ | done ].
  frame_tac IH.
Qed.

Lemma inv_step (w w' : World) (ev : Event) :
  Inv w -> step w ev = Some w' -> Inv w'.
Proof.
  intros HI.
  destruct ev as [ | topic cb | topic msg | topic ocb | | btn now | btn a v now
                 | t | c | c e | c | c | c | c topic payload | t err ];
    cbn; intros H.
  - destruct (connect w) as [x w1] eqn:Hc. simplify_eq.
    eapply inv_connect; eauto; by destruct x.
  - unfold Mqtt.subscribe in H. destruct (connect w) as [x w1] eqn:Hc.
    simplify_eq. eapply inv_connect; eauto; by destruct x.
  - unfold Mqtt.publish in H. destruct (connect w) as [x w1] eqn:Hc.
    simplify_eq. eapply inv_connect; eauto; by destruct x.
  - simplify_eq. unfold unsubscribe, connected_client.
    repeat case_match; frame_tac HI.
  - simplify_eq. unfold disconnect.
    case_match; frame_tac HI.
  - unfold Mqtt.publish in H. destruct (connect w) as [x w1] eqn:Hc.
    simplify_eq. eapply inv_connect; eauto; by destruct x.
  - unfold Mqtt.publish in H. destruct (connect w) as [x w1] eqn:Hc.
    simplify_eq. eapply inv_connect; eauto; by destruct x.
  - by eapply inv_resume.
  - destruct (clients w !! c); simplify_option_eq.
    apply inv_resolve. pose proof (inv_stop_timer w c HI) as HI'.
    frame_tac HI'.
  - destruct (clients w !! c); simplify_option_eq.
    apply inv_reject. unfold end_client. cbn.
    pose proof (inv_stop_timer w c HI) as HI'.
    case_match; frame_tac HI'.
  - destruct (clients w !! c) as [info |]; [ | discriminate ]; cbn in H.
    destruct (timer info); simplify_eq.
    apply inv_reject. unfold end_client. cbn.
    pose proof (inv_stop_timer w c HI) as HI'.
    case_match; frame_tac HI'.
  - destruct (clients w !! c); simplify_option_eq.
    frame_tac HI.
  - destruct (clients w !! c); simplify_option_eq.
    frame_tac HI.
  - destruct (clients w !! c); simplify_option_eq. by apply inv_on_message.
  - unfold subscribe_acked in H.
    repeat case_match; simplify_eq;
      (apply inv_set_task; [ done | ]); frame_tac HI.
Qed.

Lemma inv_exec (evs : list Event) (w w' : World) :
  Inv w -> exec w evs = Some w' -> Inv w'.
Proof.
  revert w. induction evs as [| ev evs IH]; cbn; intros w HI H.
  - by simplify_eq.
  - destruct (step w ev) as [w1 |] eqn:Hs; [ | discriminate ].
    eapply IH; [ eapply inv_step | ]; eauto.
Qed.

(** ** At most one attempt in flight *)

Lemma filter_none {T} (P : T -> Prop) `{forall x, Decision (P x)} (l : list T) :
  (forall x, x ∈ l -> ~ P x) -> filter P l = [].
Proof.
  intros Hno. destruct (filter P l) as [| y rest] eqn:E; [ done | ].
  assert (y ∈ filter P l) as Hy by (rewrite E; left).
  apply list_elem_of_filter in Hy as [Py Hy]. by destruct (Hno y Hy).
Qed.

Lemma filter_at_most_one {T} (P : T -> Prop) `{forall x, Decision (P x)}
    (l : list T) :
  (forall i j x y, l !! i = Some x -> P x -> l !! j = Some y -> P y -> i = j) ->
  (length (filter P l) <= 1)%nat.
Proof.
  induction l as [| a l IH]; intros Huniq; [ cbn; lia | ].
  rewrite filter_cons. destruct (decide (P a)) as [Ha | Hna].
  - assert (filter P l = []) as ->; [ | cbn; lia ].
    apply filter_none. intros y Hy Py.
    apply list_elem_of_lookup in Hy as [j Hj].
    specialize (Huniq 0%nat (S j) a y eq_refl Ha Hj Py). discriminate.
  - apply IH. intros i j x y Hi Px Hj Py.
    specialize (Huniq (S i) (S j) x y Hi Px Hj Py). lia.
Qed.

Lemma in_flight_at_most_one (w : World) : Inv w -> (length (in_flight w) <= 1)%nat.
Proof.
  intros HI. unfold in_flight. apply filter_at_most_one.
  intros i j x y Hi Px Hj Py.
  destruct (inv_pending _ HI _ _ Hi Px) as (_ & Ei & _).
  destruct (inv_pending _ HI _ _ Hj Py) as (_ & Ej & _).
  congruence.
Qed.

Lemma in_flight_lookup (w : World) (info : ClientInfo) :
  info ∈ in_flight w <-> pending info = true /\ exists c, clients w !! c = Some info.
Proof.
  unfold in_flight. rewrite list_elem_of_filter, list_elem_of_lookup. tauto.
Qed.

(** C2. In every state the singleton can reach, at most one connection
    attempt is in flight; while one is, [connect()] returns the promise of
    the [doConnect] call that made the attempt, which is unsettled, and
    changes nothing (it starts no attempt); and while the client is
    connected, [connect()] changes nothing either: it returns
    [Promise.resolve()], or the promise it finds in [connectPromise]. *)
Theorem one_attempt_in_flight (evs : list Event) (w : World) :
  exec initial evs = Some w ->
  (length (in_flight w) <= 1)%nat
  /\ (forall info, info ∈ in_flight w ->
        connect w = (Joined (owner info), w)
        /\ outcome w (Joined (owner info)) = None)
  /\ (is_Some (client (self w)) -> isConnected (self w) = true ->
      connect w = (match connectPromise (self w) with
                   | Some p => Joined p
                   | None => Immediate
                   end, w)).
Proof.
  intros Hexec. pose proof (inv_exec _ _ _ inv_initial Hexec) as HI.
  split; [ by apply in_flight_at_most_one | split ].
  - intros info Hin. apply in_flight_lookup in Hin as (Hp & c & Hc).
    destruct (inv_pending _ HI _ _ Hc Hp) as (Hrun & _ & _).
    pose proof (inv_connecting _ HI _ _ _ Hrun) as Hcp.
    unfold Mqtt.connect, outcome. by rewrite Hcp, Hrun.
  - intros Hcl Hco. unfold Mqtt.connect.
    destruct (connectPromise (self w)); [ done | ].
    by rewrite bool_decide_eq_true_2, Hco.
Qed.

(** ** One attempt, no retry *)

Lemma in_flight_none (w : World) :
  (forall c info, clients w !! c = Some info -> pending info = false) ->
  in_flight w = [].
Proof.
  intros H. unfold in_flight. apply filter_none.
  intros info Hin Hp. apply list_elem_of_lookup in Hin as [c Hc].
  specialize (H _ _ Hc). congruence.
Qed.




(** ** Dispatch *)


(** ** Quality of service *)

(** C8. In every state the singleton can reach, every subscription and
    every publication asked of the library was asked at QoS 0; [subscribe]
    passes QoS 0 for a topic it does not know yet, and [publish] passes
    QoS 0 for every topic and message. *)
Theorem qos_always_zero (evs : list Event) (w : World) :
  exec initial evs = Some w ->
  Forall qos_zero (calls w)
  /\ (forall t topic cb c,
        connected_client w = Some c -> subscribers (self w) !! topic = None ->
        calls (subscribe_connected w t topic cb)
        = (calls w ++ [client_subscribe c topic 0])%list)
  /\ (forall t topic msg c,
        connected_client w = Some c ->
        calls (publish_connected w t topic msg)
        = (calls w ++ [client_publish c topic msg 0])%list).
Proof.
  intros Hexec. repeat split.
  - destruct (exec_extends _ _ _ Hexec) as (new & -> & Hnew). exact Hnew.
  - intros t topic cb c Hc Hl. unfold subscribe_connected. by rewrite Hc, Hl.
  - intros t topic msg c Hc. unfold publish_connected. by rewrite Hc.
Qed.

End Facts.



(** An instance of C2: the second [connect()] finds the attempt of the
    first in flight and joins it. *)
Lemma one_attempt_in_flight_witness :
  (length (in_flight (world_after two_connects)) <= 1)%nat.
Proof.
  refine (proj1 (one_attempt_in_flight
                   (Some "broker") (Some "wss://broker.example/mqtt")
                   None None (fun n => "media_remote_0")
                   string_of_list_byte sample_stringify
                   two_connects (world_after two_connects) _)).
  vm_compute. reflexivity.
Defined.


(** An instance of C8: the one subscription of [two_subscribers]. *)
Lemma qos_always_zero_witness :
  Forall qos_zero (calls (world_after two_subscribers)).
Proof.
  refine (proj1 (qos_always_zero
                   (Some "broker") (Some "wss://broker.example/mqtt")
                   None None (fun n => "media_remote_0")
                   string_of_list_byte sample_stringify
                   two_subscribers (world_after two_subscribers) _)).
  vm_compute. reflexivity.
Defined.

End MqttFacts.

(* ===================================================================== *)
(** * Properties of the remote pages                                  *)
(* ===================================================================== *)

Module RemoteFacts.
Import JS RemoteProps.

Lemma append_String (c : ascii) (s t : string) :
  String c s ++ t = String c (s ++ t).
Proof. reflexivity. Qed.







Lemma take_id_chars (s : string) :
  Forall (fun c => Str.is_id_char c = true) (chars (Str.take_id s)).
Proof.
  induction s as [| c s IH]; cbn; [ constructor | ].
  destruct (Str.is_id_char c) eqn:Hc; cbn; [ by constructor | constructor ].
Qed.

Lemma match_here_is_id (alternatives : list string) (s id : string) :
  Str.match_here alternatives s = Some id -> is_id id.
Proof.
  induction alternatives as [| p rest IH]; cbn; [ done | ].
  destruct (Str.strip_prefix p s) as [after |]; [ | exact IH ].
  destruct (Str.take_id after) as [| c t] eqn:Ht; [ exact IH | ].
  intros [= <-]. split; [ done | ]. rewrite <- Ht. apply take_id_chars.
Qed.

Lemma match_id_is_id (alternatives : list string) (s id : string) :
  Str.match_id alternatives s = Some id -> is_id id.
Proof.
  induction s as [| c s IH]; cbn.
  - destruct (Str.match_here alternatives "") eqn:Hh; [ | done ].
    intros [= <-]. by eapply match_here_is_id.
  - destruct (Str.match_here alternatives (String c s)) eqn:Hh; [ | exact IH ].
    intros [= <-]. by eapply match_here_is_id.
Qed.

Lemma lower_dot (c : ascii) :
  Ascii.eqb (Str.lower c) (Str.lower "."%char) = true -> c = "."%char.
Proof.
  destruct c as [[] [] [] [] [] [] [] []]; vm_compute; intros H;
    first [ discriminate H | reflexivity ].
Qed.

Lemma eqb_ci_dot (s e : string) :
  Str.eqb_ci s (String "."%char e) = true -> exists rest, s = String "."%char rest.
Proof.
  destruct s as [| c s]; cbn; [ done | ].
  intros H. apply andb_true_iff in H as [Hc _].
  apply lower_dot in Hc as ->. eauto.
Qed.

(** What the extension pattern matches begins with its dot. *)
Lemma match_extension_dot (extensions : list string) (s m : string) :
  Str.match_extension extensions s = Some m -> exists rest, m = String "."%char rest.
Proof.
  induction s as [| c s IH]; cbn.
  - destruct (existsb _ extensions) eqn:Hex; [ | done ].
    intros [= <-]. apply existsb_exists in Hex as (e & _ & He). done.
  - destruct (existsb _ extensions) eqn:Hex; [ | exact IH ].
    intros [= <-]. apply existsb_exists in Hex as (e & _ & He).
    by apply (eqb_ci_dot (String c s) e).
Qed.

Lemma image_fileType_not_video (url : string) :
  Str.startsWith (Remote.image_fileType url) "video/" = false
  /\ Remote.image_fileType url <> "video/youtube".
Proof.
  unfold Remote.image_fileType.
  destruct (Str.match_extension Remote.image_extensions url) as [m |] eqn:Hm;
    [ | done ].
  apply match_extension_dot in Hm as [rest ->]. done.
Qed.

Lemma processMediaUrl_cases (url : string) (selectedType : Remote.TypeSelection) :
  Shape url (Remote.processMediaUrl url selectedType).
Proof.
  unfold Remote.processMediaUrl.
  destruct (Str.includes url "youtube.com" || Str.includes url "youtu.be").
  { destruct (Str.match_id _ url) as [id |] eqn:Hid; [ | constructor ].
    constructor. by eapply match_id_is_id. }
  destruct (Str.includes url "drive.google.com").
  { destruct (Str.match_id _ url) as [id |] eqn:Hid; [ | constructor ].
    destruct (Remote.wants_image selectedType url);
      constructor; by eapply match_id_is_id. }
  destruct (Remote.wants_video selectedType url); [ constructor | ].
  destruct (Remote.wants_image selectedType url); constructor.
Qed.


(** The media type is ['video'] exactly when the file type begins with
    ['video/']. *)
Lemma fileType_video_prefix (url : string) (selectedType : Remote.TypeSelection) :
  Str.startsWith (Remote.fileType (Remote.processMediaUrl url selectedType)) "video/"
  = match Remote.mediaType (Remote.processMediaUrl url selectedType) with
    | Remote.kVideo => true
    | Remote.kImage => false
    end.
Proof.
  destruct (image_fileType_not_video url) as [Hnv Hny].
  by destruct (processMediaUrl_cases url selectedType).
Qed.

(** X3. The two descriptions [processMediaUrl] gives of a URL agree: the media
    type is ['video'] exactly when the file type begins with ['video/'], and
    the file type is ['video/youtube'] only for a YouTube embed. The file
    type of an image is ['image/jpeg'] or the extension the URL ends in, dot
    included. *)
Theorem processMediaUrl_types_agree (url : string) (selectedType : Remote.TypeSelection) :
  let p := Remote.processMediaUrl url selectedType in
  (Str.startsWith (Remote.fileType p) "video/"
   = match Remote.mediaType p with Remote.kVideo => true | Remote.kImage => false end)
  /\ (Remote.fileType p = "video/youtube" ->
      exists id, is_id id
        /\ Remote.processedUrl p
           = "https://www.youtube-nocookie.com/embed/" ++ id ++ "?autoplay=1&mute=1")
  /\ (Remote.mediaType p = Remote.kImage ->
      Remote.fileType p = "image/jpeg"
      \/ exists extension, Remote.fileType p = String "."%char extension).
Proof.
  cbn zeta. destruct (image_fileType_not_video url) as [Hnv Hny].
  destruct (processMediaUrl_cases url selectedType); cbn.
  all: repeat split; try done; eauto.
  all: try (intros _; unfold Remote.image_fileType;
            destruct (Str.match_extension Remote.image_extensions url) as [m |] eqn:Hm;
            [ right; by eapply match_extension_dot | by left ]).
Qed.

(** An instance: a short YouTube link becomes an embed of its id. *)
Lemma processMediaUrl_types_agree_witness :
  exists id,
    is_id id
    /\ Remote.processedUrl (Remote.processMediaUrl sample_url Remote.auto)
       = "https://www.youtube-nocookie.com/embed/" ++ id ++ "?autoplay=1&mute=1".
Proof.
  exact (proj1 (proj2 (processMediaUrl_types_agree sample_url Remote.auto))
           eq_refl).
Defined.

(** ** The page without playback control, fed by the URL remote *)

(** X4. The display without playback control shows a message of the URL remote
    as that remote describes it: the processed URL in a YouTube frame, in a
    video element or in an image, after the media type, the image under the
    name sent along. *)
Theorem simple_display_renders_url_message
    (st : Remote.State) (now : float) (dst : SimpleDisplay.State) :
  let p := Remote.processMediaUrl (Remote.mediaUrl st) (Remote.mediaTypeSelection st) in
  SimpleDisplay.renderContent (simple_showing dst (Remote.message_of st now))
  = match Remote.mediaType p with
    | Remote.kVideo =>
        if String.eqb (Remote.fileType p) "video/youtube"
        then SimpleDisplay.YouTubeFrame (Some (JStr (Remote.processedUrl p)))
        else SimpleDisplay.VideoElement (Some (JStr (Remote.processedUrl p)))
    | Remote.kImage =>
        SimpleDisplay.Image (Some (JStr (Remote.processedUrl p)))
          (Some (JStr (Remote.fileName_of (Remote.mediaUrl st))))
    end.
Proof.
  cbn zeta.
  pose proof (fileType_video_prefix (Remote.mediaUrl st)
                (Remote.mediaTypeSelection st)) as Hv.
  unfold Remote.message_of, simple_showing.
  revert Hv.
  generalize (Remote.processMediaUrl (Remote.mediaUrl st) (Remote.mediaTypeSelection st)).
  intros [u t k] Hv. cbn in Hv |- *.
  unfold SimpleDisplay.renderContent, SimpleDisplay.isVideo. cbn.
  destruct k; cbn; [ by rewrite Hv | reflexivity ].
Qed.

(** ** The upload loop of the file remote *)

Lemma collect_spec (acc : FileRemote.Collected) (f : FileRemote.File) :
  FileRemote.collect acc f
  = {| FileRemote.mediaType := kind_of f;
       FileRemote.fileNames := (FileRemote.fileNames acc ++ [FileRemote.name f])%list;
       FileRemote.fileContents := (FileRemote.fileContents acc ++ [content_of f])%list |}.
Proof.
  unfold FileRemote.collect, content_of, kind_of.
  destruct (Str.startsWith (FileRemote.type f) "image/"); [ done | ].
  destruct (Str.startsWith (FileRemote.type f) "video/"); [ done | ].
  by destruct (String.eqb (FileRemote.type f) "application/pdf").
Qed.

Lemma fold_collect (files : list FileRemote.File) (acc : FileRemote.Collected) :
  fold_left FileRemote.collect files acc
  = {| FileRemote.mediaType :=
         match last files with
         | Some f => kind_of f
         | None => FileRemote.mediaType acc
         end;
       FileRemote.fileNames :=
         (FileRemote.fileNames acc ++ map FileRemote.name files)%list;
       FileRemote.fileContents :=
         (FileRemote.fileContents acc ++ map content_of files)%list |}.
Proof.
  revert acc. induction files as [| f files IH]; intros acc; cbn.
  - destruct acc. cbn. by rewrite !app_nil_r.
  - rewrite IH, collect_spec. cbn. rewrite last_cons, <- !app_assoc. cbn.
    by destruct (last files).
Qed.

(** X5. The upload loop keeps one name and one content per file, in the order
    of the selection, and labels the whole upload with the kind of its last
    file (['text'] for none): a selection of several kinds goes out under
    one [mediaType]. *)
Theorem collectAll_spec (files : list FileRemote.File) :
  FileRemote.collectAll files
  = {| FileRemote.mediaType :=
         match last files with Some f => kind_of f | None => FileRemote.kText end;
       FileRemote.fileNames := map FileRemote.name files;
       FileRemote.fileContents := map content_of files |}.
Proof. unfold FileRemote.collectAll. by rewrite fold_collect. Qed.

(** ** The page with playback control, fed by the file remote *)

Lemma nth_error_map_middle {T U} (g : T -> U) (pre : list T) (x : T) (rest : list T) :
  nth_error (map g (pre ++ x :: rest)) (length pre) = Some (g x).
Proof. induction pre as [| a pre IH]; cbn; [ done | exact IH ]. Qed.

Lemma images_from_cons (i : nat) (u : JValue) (urls : list JValue) (names : Value) :
  Display.images_from i (u :: urls) names
  = match index names i, Display.images_from (S i) urls names with
    | Normal alt, Normal items => Normal ((Some u, alt) :: items)
    | Throw e, _ => Throw e
    | _, Throw e => Throw e
    end.
Proof. reflexivity. Qed.

Lemma images_from_files (pre files : list FileRemote.File) :
  Display.images_from (length pre) (map JStr (map content_of files))
    (Some (JArr (map JStr (map FileRemote.name (pre ++ files)))))
  = Normal (map img_of files).
Proof.
  revert pre. induction files as [| f files IH]; intros pre; [ done | ].
  rewrite !map_cons, images_from_cons. unfold index.
  rewrite (map_map FileRemote.name JStr), nth_error_map_middle.
  specialize (IH (pre ++ [f])%list).
  rewrite length_app, <- app_assoc in IH. cbn [length app] in IH.
  rewrite Nat.add_1_r in IH.
  rewrite <- (map_map FileRemote.name JStr). by rewrite IH.
Qed.

(** X6. The display with playback control shows an upload of the file remote
    by the kind the upload is labelled with, that of its last file: as
    images, every file of the selection under its name; as text, PDF or
    video, the first file alone. *)
Theorem display_renders_file_upload
    (st : FileRemote.State) (first : FileRemote.File) (rest : list FileRemote.File)
    (now : float) (dst : Display.State) :
  let files := first :: rest in
  Display.renderContent (showing dst (FileRemote.message_of st files now))
  = match FileRemote.mediaType (FileRemote.collectAll files) with
    | FileRemote.kImage => Display.Images (map img_of files)
    | FileRemote.kText => Display.TextBlock (Some (JStr (content_of first)))
    | FileRemote.kPdf =>
        Display.PdfFrame (Some (JStr (content_of first)))
          (Some (JStr (FileRemote.name first)))
    | FileRemote.kVideo =>
        if String.eqb (FileRemote.type first) "video/youtube"
        then Display.YouTubeFrame (Some (JStr (content_of first)))
        else Display.VideoElement (Some (JStr (content_of first)))
    end.
Proof.
  cbn zeta. unfold FileRemote.message_of, showing, FileRemote.collectAll.
  rewrite fold_collect. cbn [FileRemote.mediaType FileRemote.fileNames
                                 FileRemote.fileContents].
  pose proof (images_from_files [] (first :: rest)) as Himg.
  cbn [length app] in Himg.
  unfold Display.renderContent. cbn -[Display.images_from map last].
  destruct (match last (first :: rest) with
            | Some f => kind_of f
            | None => FileRemote.kText
            end); cbn -[Display.images_from map]; try reflexivity.
  by rewrite Himg.
Qed.

Lemma images_from_array (i : nat) (urls names : list JValue) :
  exists items, Display.images_from i urls (Some (JArr names)) = Normal items
                /\ length items = length urls.
Proof.
  revert i. induction urls as [| u urls IH]; intros i; cbn; [ by eexists | ].
  destruct (IH (S i)) as (items & -> & Hlen). eexists. split; [ done | ].
  cbn. by rewrite Hlen.
Qed.

(** X7. A message that conforms to the [FileMessage] interface is always
    rendered by the display with playback control: reading it throws
    nothing and the waiting screen is not shown. As images it gives one
    image per entry of [fileContent]. *)
Theorem conforming_message_renders (item : JValue) (dst : Display.State) :
  FileMessage.conforms item = true ->
  (forall e, Display.renderContent (showing dst item) <> Display.RenderError e)
  /\ (forall connected b,
        Display.renderContent (showing dst item) <> Display.Waiting connected b)
  /\ (forall items urls,
        Display.renderContent (showing dst item) = Display.Images items ->
        field item "fileContent" = Some (JArr urls) ->
        length items = length urls).
Proof.
  unfold FileMessage.conforms. rewrite !andb_true_iff.
  intros (((((((Hb & Hn) & Hc) & Ht) & Hm) & Hts) & _) & _).
  assert (exists props, item = JObj props) as [props ->].
  { destruct item; cbn in Hb; try discriminate. eauto. }
  unfold showing, Display.renderContent. cbn -[field Display.images_from].
  destruct (field (JObj props) "fileContent") as [[| | | | urls |] |];
    try discriminate Hc.
  destruct (field (JObj props) "fileName") as [[| | | | names |] |];
    try discriminate Hn.
  destruct (images_from_array 0 urls names) as (items & Hi & Hlen).
  repeat split; intros; repeat case_match; simplify_eq; try done.
Qed.

(** An instance: a text file and an image, the image last. *)
Lemma conforming_message_renders_witness :
  Display.renderContent
    (showing Display.initialState
       (FileRemote.message_of sample_file_remote sample_files 0%float))
  <> Display.RenderError "TypeError".
Proof.
  refine (proj1 (conforming_message_renders _ Display.initialState _) _).
  reflexivity.
Defined.

End RemoteFacts.

(* ===================================================================== *)
(** * Properties of the display page as a whole                       *)
(* ===================================================================== *)

Module ControlFacts.
Import JS ControlProps PageProps RemoteProps.



(** ** What moves the view *)






Section Page.
Variable JSON_parse : string -> option JValue.



Lemma displayEffect_selected (st : Display.State) :
  Display.selectedButton (fst (Display.displayEffect st)) = Display.selectedButton st
  /\ Display.buttonMedia (fst (Display.displayEffect st)) = Display.buttonMedia st.
Proof. unfold Display.displayEffect. by repeat case_match. Qed.


(** ** Uploads *)

Lemma accepted_upload_object (data : JValue) (key : string) :
  accepted_upload data key -> exists props, data = JObj props.
Proof. intros (Hb & _). destruct data; cbn in Hb; try discriminate. eauto. Qed.

Lemma truthy_JStr (key : string) : key <> "" -> truthy (Some (JStr key)) = true.
Proof. intros Hk. cbn. by apply negb_true_iff, String.eqb_neq. Qed.

(** The handler on an accepted upload. *)
Lemma handled_upload (st : Display.State) (message topic : string)
    (data : JValue) (key : string) :
  JSON_parse message = Some data -> media_topic topic -> accepted_upload data key ->
  exists st1,
    Display.handleMQTTMessage JSON_parse st message topic
    = Display.Done st1 [] [] true
    /\ Display.buttonMedia st1 = <[key := data]> (Display.buttonMedia st)
    /\ Display.selectedButton st1 = Display.selectedButton st
    /\ (is_str (field data "mediaType") "video" = true ->
        key = Button_key (Display.selectedButton st) ->
        Display.isPlaying
          (Display.at_button (Display.mediaState st1) (Display.selectedButton st))
        = true).
Proof.
  intros Hp [Hnb Hnm] Hacc.
  destruct (accepted_upload_object _ _ Hacc) as [props ->].
  destruct Hacc as (Hb & Hk & Hc & Ht). cbn in Hb, Hc, Ht.
  apply String.eqb_neq in Hnb, Hnm.
  unfold Display.handleMQTTMessage, Display.onMedia.
  rewrite Hp, Hnb, Hnm. cbn. rewrite Hb, Hc, Ht, (truthy_JStr _ Hk). cbn.
  eexists. split; [ reflexivity | ].
  repeat case_match; cbn; repeat split; auto; intros Hv ->;
    rewrite ?String.eqb_refl, ?andb_true_r in *;
    try congruence;
    destruct (Display.selectedButton st); reflexivity.
Qed.

(** The page on an accepted upload. *)
Lemma upload_step
    (st : Display.State) (message topic : string) (data : JValue) (key : string) :
  JSON_parse message = Some data -> media_topic topic -> accepted_upload data key ->
  exists st',
    Display.step JSON_parse st (Display.Incoming message topic) = Some st'
    /\ Display.buttonMedia st' = <[key := data]> (Display.buttonMedia st)
    /\ Display.selectedButton st' = Display.selectedButton st
    /\ (key = Button_key (Display.selectedButton st) ->
        Display.currentDisplay st' = Some data)
    /\ (key <> Button_key (Display.selectedButton st) -> page_ok st ->
        Display.currentDisplay st' = Display.currentDisplay st).
Proof.
  intros Hp Htopic Hacc.
  destruct (handled_upload st message topic data key Hp Htopic Hacc)
    as (st1 & Hh & Hmedia & Hsel & _).
  destruct (accepted_upload_object _ _ Hacc) as [props ->].
  cbn. rewrite Hh. cbn. eexists. split; [ reflexivity | ].
  destruct (displayEffect_selected st1) as [Es Em].
  rewrite Es, Em, Hsel, Hmedia. repeat split.
  - intros ->. unfold Display.displayEffect.
    rewrite Hmedia, Hsel, lookup_insert_eq. cbn. by case_match.
  - intros Hne [Hobj Hshown].
    assert (media_objects (Display.buttonMedia st1)) as Hobj1.
    { rewrite Hmedia. by apply PageFacts.media_objects_insert. }
    destruct (PageFacts.displayEffect_shows st1 Hobj1) as (H1 & _ & _).
    unfold shows_assigned in H1. rewrite Es, Em, Hsel, Hmedia in H1.
    rewrite H1, lookup_insert_ne by done. by rewrite Hshown.
Qed.


(** X12. An upload of a video for the active button sets that button playing;
    and after any accepted upload, if the active button holds an image, the
    autoscroll of the active button is on, heading down, from the top. *)
Theorem upload_starts_playback
    (st : Display.State) (message topic : string) (data : JValue) (key : string) :
  JSON_parse message = Some data -> media_topic topic -> accepted_upload data key ->
  exists st',
    Display.step JSON_parse st (Display.Incoming message topic) = Some st'
    /\ (key = Button_key (Display.selectedButton st) ->
        is_str (field data "mediaType") "video" = true ->
        Display.isPlaying
          (Display.at_button (Display.mediaState st') (Display.selectedButton st))
        = true)
    /\ (forall item,
          Display.currentDisplay st' = Some item ->
          is_str (field item "mediaType") "image" = true ->
          let m := Display.at_button (Display.mediaState st')
                     (Display.selectedButton st) in
          Display.isScrolling m = true
          /\ Display.scrollDirection m = Display.down
          /\ Display.scrollRef st' = f0).
Proof.
  intros Hp Htopic Hacc.
  destruct (handled_upload st message topic data key Hp Htopic Hacc)
    as (st1 & Hh & Hmedia & Hsel & Hplay).
  cbn. rewrite Hh. cbn. eexists. split; [ reflexivity | ].
  unfold Display.displayEffect. rewrite Hsel. split.
  - intros Hk Hv. specialize (Hplay Hv Hk).
    repeat case_match; cbn; try exact Hplay;
      destruct (Display.selectedButton st); exact Hplay.
  - intros item. unfold Display.mediaType_of, field.
    repeat case_match; cbn; intros [= <-] Hi; try congruence;
      destruct (Display.selectedButton st); cbn; auto.
Qed.

(** ** From the remote to the display *)

Lemma as_Action_Action_str (a : Action) :
  Display.as_Action (Some (JStr (Mqtt.Action_str a))) = Some a.
Proof. by destruct a. Qed.

Lemma as_Button_Button_key (b : Button) :
  Display.as_Button (Some (JStr (Button_key b))) = Some b.
Proof. by destruct b. Qed.

(** X13. A command of the remote reaches the reducer as it was given: when
    [JSON.parse] gives back what [JSON.stringify] was given, the display
    handles the payload of [publishMediaControl(b, a, v)] by running the
    reducer on the message [{ button: b, action: a, value: v }], whatever
    the action. *)
Theorem media_control_round_trip
    (JSON_stringify : JValue -> string) (st : Display.State)
    (b : Button) (a : Action) (v : option float) (now : float) :
  let payload := JSON_stringify (Mqtt.MediaControl_json b a v now) in
  let m := {| button := b; action := a; value := v; timestamp := now |} in
  let r := Display.handleMediaControlMessage (Display.selectedButton st)
             (Display.videoRef st) (Display.rafRef st) m (Display.mediaState st) in
  JSON_parse payload = Some (Mqtt.MediaControl_json b a v now) ->
  exists st',
    Display.handleMQTTMessage JSON_parse st payload "home/mediaControl"
    = Display.Done st' (snd r) [] false
    /\ Display.mediaState st' = fst r
    /\ Display.selectedButton st' = Display.selectedButton st
    /\ Display.buttonMedia st' = Display.buttonMedia st.
Proof.
  cbn zeta. intros Hp. unfold Display.handleMQTTMessage. rewrite Hp.
  cbn -[Display.onMediaControl].
  unfold Display.onMediaControl, Mqtt.MediaControl_json.
  destruct v as [d |];
    cbn -[Display.as_Button Display.as_Action Display.handleMediaControlMessage];
    rewrite as_Button_Button_key, as_Action_Action_str.
  all: destruct (Display.handleMediaControlMessage _ _ _ _ _) as [next effects].
  all: eexists; split; [ reflexivity | ].
  all: destruct a, (Display.rafRef st); cbn; auto.
Qed.

(** X14. A change of button on the remote reaches both displays: they handle
    the payload of [publishButtonControl(b)] by making [b] the active
    button. *)
Theorem button_control_round_trip
    (JSON_stringify : JValue -> string) (b : Button) (now : float) :
  let payload := JSON_stringify (Mqtt.ButtonControl_json b now) in
  JSON_parse payload = Some (Mqtt.ButtonControl_json b now) ->
  (forall st,
      Display.handleMQTTMessage JSON_parse st payload "home/buttonControl"
      = Display.Done (Display.setSelectedButton st b) [] [] false)
  /\ (forall st,
        exists st',
          SimpleDisplay.handleMQTTMessage JSON_parse st payload "home/buttonControl"
          = SimpleDisplay.Done st' [] false
          /\ SimpleDisplay.selectedButton st' = b
          /\ SimpleDisplay.buttonMedia st' = SimpleDisplay.buttonMedia st).
Proof.
  cbn zeta. intros Hp. split; intros st.
  - unfold Display.handleMQTTMessage, Display.onButtonControl. rewrite Hp.
    cbn -[Display.as_Button]. by rewrite as_Button_Button_key.
  - unfold SimpleDisplay.handleMQTTMessage. rewrite Hp.
    cbn -[Display.as_Button]. rewrite as_Button_Button_key.
    eexists. by repeat split.
Qed.

(** ** From the remotes to the displays *)

(** X15. An upload of the file remote reaches the display with playback control
    only if the first file of the selection has a type: the display files
    it under the button selected on the remote and shows it when that
    button is active; but when the browser gives the first file no type
    ([file.type] is empty), the display drops the whole upload and stays as
    it is. *)
Theorem file_upload_reaches_display
    (rst : FileRemote.State) (first : FileRemote.File) (rest : list FileRemote.File)
    (now : float) (st : Display.State) (payload topic : string) :
  let msg := FileRemote.message_of rst (first :: rest) now in
  let key := Button_key (FileRemote.selectedButton rst) in
  JSON_parse payload = Some msg -> media_topic topic ->
  (FileRemote.type first = "" ->
   Display.step JSON_parse st (Display.Incoming payload topic) = Some st)
  /\ (FileRemote.type first <> "" ->
      exists st',
        Display.step JSON_parse st (Display.Incoming payload topic) = Some st'
        /\ Display.buttonMedia st' = <[key := msg]> (Display.buttonMedia st)
        /\ (key = Button_key (Display.selectedButton st) ->
            Display.currentDisplay st' = Some msg)).
Proof.
  cbn zeta. intros Hp Htopic. split.
  - intros Hty. destruct Htopic as [Hnb Hnm]. apply String.eqb_neq in Hnb, Hnm.
    cbn. unfold Display.handleMQTTMessage, Display.onMedia.
    rewrite Hp, Hnb, Hnm. cbn. rewrite Hty. cbn.
    rewrite andb_false_r. cbn. by destruct (Display.selectedButton st).
  - intros Hty.
    destruct (upload_step st payload topic
                (FileRemote.message_of rst (first :: rest) now)
                (Button_key (FileRemote.selectedButton rst)) Hp Htopic)
      as (st' & Hstep & Hm & _ & Hshown & _).
    { repeat split; cbn.
      - by destruct (FileRemote.selectedButton rst).
      - by apply negb_true_iff, String.eqb_neq. }
    eauto.
Qed.

Lemma image_fileType_truthy (url : string) :
  Remote.image_fileType url <> "".
Proof.
  unfold Remote.image_fileType.
  destruct (Str.match_extension Remote.image_extensions url) as [m |] eqn:Hm;
    [ | done ].
  apply RemoteFacts.match_extension_dot in Hm as [r ->]. done.
Qed.

Lemma append_not_empty (a b : string) : a <> "" -> a ++ b <> "".
Proof. destruct a; [ done | ]. by rewrite RemoteFacts.append_String. Qed.

(** What [processMediaUrl] makes of a URL that is not empty has a URL and
    a file type that are not empty. *)
Lemma processMediaUrl_truthy (url : string) (selectedType : Remote.TypeSelection) :
  url <> "" ->
  Remote.processedUrl (Remote.processMediaUrl url selectedType) <> ""
  /\ Remote.fileType (Remote.processMediaUrl url selectedType) <> "".
Proof.
  intros Hurl. pose proof (image_fileType_truthy url).
  destruct (RemoteFacts.processMediaUrl_cases url selectedType); cbn;
    split; try done; by apply append_not_empty.
Qed.

(** X16. Every message the URL remote publishes is accepted by the display
    without playback control: it is filed under the button selected on the
    remote, and shown when that button is active. *)
Theorem url_upload_reaches_display
    (rst : Remote.State) (now : float) (st : SimpleDisplay.State)
    (payload topic : string) (msg : JValue) :
  Remote.handleMediaUpload rst now = Remote.Publish topic msg ->
  JSON_parse payload = Some msg ->
  let key := Button_key (Remote.selectedButton rst) in
  exists st',
    SimpleDisplay.step JSON_parse st payload topic = Some st'
    /\ SimpleDisplay.buttonMedia st' = <[key := msg]> (SimpleDisplay.buttonMedia st)
    /\ SimpleDisplay.selectedButton st' = SimpleDisplay.selectedButton st
    /\ (key = Button_key (SimpleDisplay.selectedButton st) ->
        SimpleDisplay.currentDisplay st' = Some msg).
Proof.
  unfold Remote.handleMediaUpload. intros Hup Hp.
  destruct (String.eqb_spec (Remote.mediaUrl rst) "") as [| Hurl]; [ done | ].
  destruct (negb (Remote.isConnected rst)); [ done | ]. simplify_eq.
  destruct (processMediaUrl_truthy (Remote.mediaUrl rst)
              (Remote.mediaTypeSelection rst) Hurl) as [Hu Ht].
  apply String.eqb_neq in Hu, Ht.
  assert (("home/button" ++ Button_key (Remote.selectedButton rst)
           =? "home/buttonControl") = false) as Htopic
    by (by destruct (Remote.selectedButton rst)).
  cbn zeta. unfold SimpleDisplay.step, SimpleDisplay.handleMQTTMessage.
  rewrite Hp, Htopic. unfold Remote.message_of. cbn.
  rewrite Hu, Ht. cbn.
  assert (negb (Button_key (Remote.selectedButton rst) =? "") = true) as ->
    by (by destruct (Remote.selectedButton rst)).
  cbn. eexists. split; [ reflexivity | ]. cbn. repeat split.
  intros ->. by rewrite lookup_insert_eq.
Qed.

End Page.





(** An instance: the image uploaded for the active button scrolls. *)
Lemma upload_starts_playback_witness :
  exists st',
    Display.step sample_upload_parse Display.initialState
      (Display.Incoming "{cat}" "home/buttonA") = Some st'
    /\ (Display.currentDisplay st' = Some sample_upload ->
        Display.isScrolling (Display.at_button (Display.mediaState st') A) = true).
Proof.
  destruct (upload_starts_playback sample_upload_parse Display.initialState
              "{cat}" "home/buttonA" sample_upload "A" eq_refl
              ltac:(split; discriminate) ltac:(repeat split; discriminate))
    as (st' & Hstep & _ & Hscroll).
  exists st'. split; [ exact Hstep | ].
  intros Hcur. exact (proj1 (Hscroll sample_upload Hcur eq_refl)).
Defined.

(** An instance: [zoom_in] for button B, sent without a value. *)
Lemma media_control_round_trip_witness :
  exists st' effects,
    Display.handleMQTTMessage sample_control_parse Display.initialState
      "{zoom}" "home/mediaControl"
    = Display.Done st' effects [] false.
Proof.
  destruct (media_control_round_trip sample_control_parse (fun _ => "{zoom}")
              Display.initialState B zoom_in None 0%float eq_refl)
    as (st' & Hh & _).
  exists st'. eexists. exact Hh.
Defined.

(** An instance: the remote makes B the active button. *)
Lemma button_control_round_trip_witness :
  Display.handleMQTTMessage sample_button_parse Display.initialState
    "{button}" "home/buttonControl"
  = Display.Done (Display.setSelectedButton Display.initialState B) [] [] false.
Proof.
  exact (proj1 (button_control_round_trip sample_button_parse
                  (fun _ => "{button}") B 0%float eq_refl)
           Display.initialState).
Defined.

(** An instance: a text file and an image for button A; the first file has
    a type, so the display takes the upload. *)
Lemma file_upload_reaches_display_witness :
  exists st',
    Display.step sample_files_parse Display.initialState
      (Display.Incoming "{files}" "home/buttonA") = Some st'
    /\ Display.currentDisplay st'
       = Some (FileRemote.message_of sample_file_remote sample_files 0%float).
Proof.
  destruct (proj2 (file_upload_reaches_display sample_files_parse
                     sample_file_remote
                     {| FileRemote.name := "notes.txt";
                        FileRemote.type := "text/plain";
                        FileRemote.objectURL := "blob:1";
                        FileRemote.text := "hello" |}
                     [ {| FileRemote.name := "cat.png";
                          FileRemote.type := "image/png";
                          FileRemote.objectURL := "blob:2";
                          FileRemote.text := "" |} ]
                     0%float Display.initialState "{files}" "home/buttonA"
                     eq_refl ltac:(split; discriminate))
              ltac:(discriminate))
    as (st' & Hstep & _ & Hshown).
  exists st'. split; [ exact Hstep | exact (Hshown eq_refl) ].
Defined.

(** An instance: a link to a video for button B; the display shows A. *)
Lemma url_upload_reaches_display_witness :
  exists st',
    SimpleDisplay.step sample_url_parse SimpleDisplay.initialState
      "{url}" "home/buttonB" = Some st'
    /\ SimpleDisplay.buttonMedia st'
       = <["B" := Remote.message_of sample_remote 0%float]>
           (SimpleDisplay.buttonMedia SimpleDisplay.initialState).
Proof.
  destruct (url_upload_reaches_display sample_url_parse sample_remote 0%float
              SimpleDisplay.initialState "{url}" "home/buttonB"
              (Remote.message_of sample_remote 0%float) eq_refl eq_refl)
    as (st' & Hstep & Hmedia & _).
  exists st'. split; [ exact Hstep | exact Hmedia ].
Defined.

End ControlFacts.

(* ===================================================================== *)
(** * More properties of the broker client                            *)
(* ===================================================================== *)

Module ClientFacts.
Import JS Mqtt MqttProps ClientProps.

#[local] Arguments in_flight : simpl never.

Lemma remove_first_count (cb x : Callback) (l : list Callback) :
  count_occ Nat.eq_dec (remove_first cb l) x
  = if decide (x = cb) then pred (count_occ Nat.eq_dec l x)
    else count_occ Nat.eq_dec l x.
Proof.
  induction l as [| y l IH]; cbn; [ by case_decide | ].
  destruct (Nat.eqb_spec y cb) as [-> | Hne].
  - destruct (Nat.eq_dec cb x) as [-> | Hx]; case_decide;
      first [ done | congruence ].
  - cbn. rewrite IH.
    destruct (Nat.eq_dec y x) as [-> | Hx]; case_decide;
      first [ done | congruence ].
Qed.

Lemma unsubscribe_subscribers (w : World) (topic : string) (ocb : option Callback) :
  subscribers (self (unsubscribe w topic ocb))
  = match subscribers (self w) !! topic with
    | None => subscribers (self w)
    | Some cbs =>
        match (match ocb with Some cb => remove_first cb cbs | None => [] end) with
        | [] => delete topic (subscribers (self w))
        | rest => <[topic := rest]> (subscribers (self w))
        end
    end.
Proof.
  unfold unsubscribe, connected_client.
  destruct (subscribers (self w) !! topic) as [cbs |]; [ | done ].
  destruct (match ocb with Some cb => remove_first cb cbs | None => [] end);
    [ | done ].
  cbn. by repeat case_match.
Qed.

Lemma unsubscribe_subscribers_at (w : World) (topic : string) (cb : Callback)
    (topic' : string) :
  default [] (subscribers (self (unsubscribe w topic (Some cb))) !! topic')
  = if decide (topic' = topic)
    then remove_first cb (default [] (subscribers (self w) !! topic))
    else default [] (subscribers (self w) !! topic').
Proof.
  rewrite unsubscribe_subscribers.
  generalize (subscribers (self w)). intros m.
  destruct (m !! topic) as [cbs |] eqn:Hl.
  - destruct (remove_first cb cbs) as [| y r] eqn:Hr; case_decide as Hd.
    + subst. by rewrite lookup_delete_eq.
    + by rewrite lookup_delete_ne.
    + subst. by rewrite lookup_insert_eq.
    + by rewrite lookup_insert_ne.
  - case_decide as Hd; [ | done ]. subst. by rewrite Hl.
Qed.

(** X18. [unsubscribe(topic, callback)] takes away one registration of
    [callback] for [topic], if there is one, and no other: every other
    callback of the topic, and every callback of every other topic, is
    registered as many times as before. *)
Theorem unsubscribe_takes_one (w : World) (topic : string) (cb : Callback)
    (topic' : string) (x : Callback) :
  registrations (unsubscribe w topic (Some cb)) topic' x
  = if decide (topic' = topic /\ x = cb) then pred (registrations w topic cb)
    else registrations w topic' x.
Proof.
  unfold registrations. rewrite unsubscribe_subscribers_at.
  destruct (decide (topic' = topic)) as [-> | Hne].
  - rewrite remove_first_count.
    destruct (decide (x = cb)) as [-> | Hx].
    + by rewrite decide_True.
    + rewrite decide_False; [ done | ]. by intros [_ ?].
  - rewrite decide_False; [ done | ]. by intros [? _].
Qed.

Lemma extends_by_refl (P : LibCall -> Prop) (w : World) : extends_by P w w.
Proof. exists []. split; [ by rewrite app_nil_r | constructor ]. Qed.

Lemma extends_by_trans (P : LibCall -> Prop) (w1 w2 w3 : World) :
  extends_by P w1 w2 -> extends_by P w2 w3 -> extends_by P w1 w3.
Proof.
  intros (n1 & E1 & F1) (n2 & E2 & F2). exists (n1 ++ n2)%list.
  split; [ by rewrite E2, E1, app_assoc | by apply Forall_app ].
Qed.

Lemma extends_by_same (P : LibCall -> Prop) (w w' : World) :
  calls w' = calls w -> extends_by P w w'.
Proof. intros E. exists []. split; [ by rewrite app_nil_r | constructor ]. Qed.

Lemma extends_by_call (P : LibCall -> Prop) (w : World) (c : LibCall) :
  P c -> extends_by P w (call w c).
Proof. intros Hc. exists [c]. split; [ reflexivity | by repeat constructor ]. Qed.

Section Facts.
Variables NAME URL USERNAME PASSWORD : option string.
Variable fresh_clientId : nat -> string.
Variable toString : list Byte.byte -> string.
Variable JSON_stringify : JValue -> string.

Abbreviation connect := (Mqtt.connect NAME URL USERNAME PASSWORD fresh_clientId).
Abbreviation doConnect := (Mqtt.doConnect NAME URL USERNAME PASSWORD fresh_clientId).
Abbreviation step :=
  (Mqtt.step NAME URL USERNAME PASSWORD fresh_clientId toString JSON_stringify).
Abbreviation exec :=
  (Mqtt.exec NAME URL USERNAME PASSWORD fresh_clientId toString JSON_stringify).

Lemma inv2_initial : Inv2 NAME initial.
Proof. split; cbn; done. Qed.

(** A step that leaves the client, the flags, the broker name, the
    listener lists and the clients alone. *)
Lemma inv2_frame (w w' : World) :
  client (self w') = client (self w) ->
  isConnected (self w') = isConnected (self w) ->
  currentBroker (self w') = currentBroker (self w) ->
  subscribers (self w') = subscribers (self w) ->
  clients w' = clients w ->
  Inv2 NAME w -> Inv2 NAME w'.
Proof.
  intros E1 E2 E3 E4 E5 []. split; rewrite ?E1, ?E2, ?E3, ?E4, ?E5; assumption.
Qed.

Lemma inv2_connect (w w' : World) (x : Wait) :
  Inv2 NAME w -> connect w = (x, w') -> Inv2 NAME w'.
Proof.
  intros HI Hc. unfold Mqtt.connect in Hc.
  destruct (connectPromise (self w)) as [p |]; [ by simplify_eq | ].
  destruct (bool_decide (is_Some (client (self w))) && isConnected (self w));
    [ by simplify_eq | ].
  cbn in Hc. simplify_eq. destruct HI. split; cbn.
  - intros c info Hl.
    apply MqttFacts.lookup_snoc_inv in Hl as [Hl | [_ ->]]; [ by eauto | done ].
  - done.
  - intros c [= <-]. by rewrite length_app, Nat.add_comm.
Qed.

Lemma resolve_self (w : World) (c : ClientId) : self (resolve w c) = self w.
Proof. unfold resolve, setupMessageHandler. by repeat case_match. Qed.

Lemma settled_refl (c : ClientId) (l : list ClientInfo) (info : ClientInfo) :
  l !! c = Some info -> pending info = false -> settled c l l.
Proof.
  intros Hc Hp. split; [ done | ]. intros c' i' Hl. exists i'.
  repeat split; try done.
  destruct (decide (c' = c)) as [-> | Hne]; [ right | by left ].
  split; [ done | congruence ].
Qed.

Lemma resolve_settled (w : World) (c : ClientId) :
  is_Some (clients w !! c) -> settled c (clients w) (clients (resolve w c)).
Proof.
  intros [info Hc]. unfold resolve. rewrite Hc.
  destruct (pending info) eqn:Hp; [ | by eapply settled_refl ].
  unfold setupMessageHandler. cbn.
  split; [ case_match; cbn; by rewrite ?length_alter | ].
  intros c' i' Hl.
  assert (exists i1, alter (fun i => set_pending i false) c (clients w) !! c'
                     = Some i1 /\ timer i' = timer i1 /\ pending i' = pending i1)
    as (i1 & Hl1 & Et & Ep).
  { destruct (client (self w)) as [cur |]; cbn in Hl; [ | by eauto ].
    apply MqttFacts.lookup_alter_inv in Hl as (i1 & Hl & [(_ & ->) | (_ & ->)]);
      eauto. }
  apply MqttFacts.lookup_alter_inv in Hl1 as (i & Hl0 & [(Hne & ->) | (<- & ->)]);
    exists i; (split; [ done | ]); (split; [ done | ]); [ left | right ]; done.
Qed.

Lemma reject_self (w : World) (c : ClientId) (e : Error) :
  Inv w -> self (reject w c e) = self w.
Proof.
  intros HI. unfold reject.
  destruct (clients w !! c) as [info |] eqn:Hc; [ | done ].
  destruct (pending info) eqn:Hp; [ | done ].
  destruct (inv_pending _ HI _ _ Hc Hp) as (Hrun & _).
  cbn. by rewrite Hrun.
Qed.

Lemma reject_settled (w : World) (c : ClientId) (e : Error) :
  Inv w -> is_Some (clients w !! c) ->
  settled c (clients w) (clients (reject w c e)).
Proof.
  intros HI [info Hc]. unfold reject. rewrite Hc.
  destruct (pending info) eqn:Hp; [ | by eapply settled_refl ].
  destruct (inv_pending _ HI _ _ Hc Hp) as (Hrun & _).
  cbn. rewrite Hrun. cbn.
  split; [ by rewrite length_alter | ].
  intros c' i' Hl.
  apply MqttFacts.lookup_alter_inv in Hl as (i & Hl & [(Hne & ->) | (<- & ->)]);
    exists i; (split; [ done | ]); (split; [ done | ]); [ left | right ]; done.
Qed.

(** A listener of client [c] that stops the timer and settles the attempt. *)
Lemma inv2_settle (w w' : World) (c : ClientId) :
  Inv2 NAME w -> is_Some (clients w !! c) ->
  client (self w') = client (self w) ->
  currentBroker (self w') = currentBroker (self w) ->
  subscribers (self w') = subscribers (self w) ->
  settled c (alter (fun i => set_timer i false) c (clients w)) (clients w') ->
  Inv2 NAME w'.
Proof.
  intros [] [info Hc] E1 E3 E4 [Hlen Hs]. rewrite length_alter in Hlen.
  split; rewrite ?E1, ?E3, ?E4, ?Hlen; try assumption.
  - intros c' i' Hl. apply Hs in Hl as (i1 & Hl & Et & Hcase).
    apply MqttFacts.lookup_alter_inv in Hl as (i & Hl & [(Hne & ->) | (<- & ->)]);
      cbn in *.
    + destruct Hcase as [(_ & Ep) | (? & _)]; [ | done ].
      rewrite Et, Ep. eauto.
    + destruct Hcase as [(? & _) | (_ & Ep)]; [ done | ]. congruence.
  - intros Hnone. destruct (inv_fresh0 Hnone) as (Hcl & _).
    by rewrite Hcl in Hc.
Qed.

Lemma inv2_on_message (w : World) topic payload (n : nat) :
  Inv2 NAME w ->
  Inv2 NAME (Nat.iter n (fun w => on_message toString w topic payload) w).
Proof.
  intros HI. induction n as [| n IH]; cbn; [ done | ].
  unfold on_message. case_match; [ | done ].
  by eapply inv2_frame; [ .. | exact IH ].
Qed.

Lemma inv2_set_task (w : World) (t : nat) (k : Task) :
  Inv2 NAME w -> Inv2 NAME (set_task w t k).
Proof. intros HI. by eapply inv2_frame; [ .. | exact HI ]. Qed.

Lemma inv2_spawn (w : World) (k : Task) : Inv2 NAME w -> Inv2 NAME (spawn w k).
Proof. intros HI. by eapply inv2_frame; [ .. | exact HI ]. Qed.

Lemma inv2_leave (w : World) (x : Wait) :
  Inv2 NAME w -> Inv2 NAME (leave_connect w x).
Proof.
  intros HI. destruct x; cbn; [ | done | done ].
  by eapply inv2_frame; [ .. | exact HI ].
Qed.

(** An update of the listener lists on a client that exists. *)
Lemma inv2_subscribers (w : World) (m : gmap string (list Callback)) :
  (client (self w) = None -> m = ∅) ->
  Inv2 NAME w -> Inv2 NAME (with_self w (set_subscribers (self w) m)).
Proof.
  intros Hm []. split; cbn; try assumption.
  intros Hnone. destruct (inv_fresh0 Hnone) as (? & ? & ? & ?). auto.
Qed.

Lemma inv2_call (w : World) (c : LibCall) : Inv2 NAME w -> Inv2 NAME (call w c).
Proof. intros HI. by eapply inv2_frame; [ .. | exact HI ]. Qed.

Lemma connected_client_Some (w : World) (c : ClientId) :
  connected_client w = Some c <->
  client (self w) = Some c /\ isConnected (self w) = true.
Proof.
  unfold connected_client.
  destruct (client (self w)), (isConnected (self w)); intuition congruence.
Qed.

Lemma inv2_resume (w w' : World) (t : nat) :
  Inv2 NAME w -> resume w t = Some w' -> Inv2 NAME w'.
Proof.
  intros HI Hr. unfold resume in Hr.
  destruct (tasks w !! t) as [k0 |] eqn:Ht; [ | done ].
  destruct k0 as [x | x topic cb | | x topic msg | |]; try done;
    destruct (outcome w x) as [r |] eqn:Hout; try done; cbn in Hr; simplify_eq.
  - by apply inv2_set_task, inv2_leave.
  - pose proof (inv2_leave w x HI) as HI'. destruct r; [ | by apply inv2_set_task ].
    unfold subscribe_connected.
    destruct (connected_client (leave_connect w x)) as [c |] eqn:Hcc;
      [ | by apply inv2_set_task ].
    apply connected_client_Some in Hcc as [Hcur _].
    case_match; apply inv2_set_task; [ | apply inv2_call ];
      apply inv2_subscribers; try done; cbn in Hcur; congruence.
  - pose proof (inv2_leave w x HI) as HI'. destruct r; [ | by apply inv2_set_task ].
    unfold publish_connected. case_match; apply inv2_set_task; [ | done ].
    by apply inv2_call.
Qed.

Lemma inv2_step (w w' : World) (ev : Event) :
  Inv w -> Inv2 NAME w -> step w ev = Some w' -> Inv2 NAME w'.
Proof.
  intros HI0 HI.
  destruct ev as [ | topic cb | topic msg | topic ocb | | btn now | btn a v now
                 | t | c | c e | c | c | c | c topic payload | t err ];
    cbn; intros H.
  - destruct (connect w) as [x w1] eqn:Hc. simplify_eq.
    eapply inv2_spawn, inv2_connect; eauto.
  - unfold Mqtt.subscribe in H. destruct (connect w) as [x w1] eqn:Hc.
    simplify_eq. eapply inv2_spawn, inv2_connect; eauto.
  - unfold Mqtt.publish in H. destruct (connect w) as [x w1] eqn:Hc.
    simplify_eq. eapply inv2_spawn, inv2_connect; eauto.
  - simplify_eq. unfold unsubscribe.
    destruct (subscribers (self w) !! topic) as [cbs |] eqn:Hl; [ | done ].
    assert (client (self w) <> None) as Hcur.
    { intros Hnone. destruct (inv_fresh _ _ HI Hnone) as (_ & Hs & _).
      by rewrite Hs in Hl. }
    destruct (match ocb with Some cb => remove_first cb cbs | None => [] end);
      [ destruct (connected_client _); [ apply inv2_call | ] | ];
      by apply inv2_subscribers.
  - simplify_eq. unfold disconnect.
    destruct (client (self w)) as [c |] eqn:Hcur; [ | done ].
    destruct HI. split; cbn; rewrite ?Hcur; try done. by rewrite <- Hcur.
  - unfold Mqtt.publish in H. destruct (connect w) as [x w1] eqn:Hc.
    simplify_eq. eapply inv2_spawn, inv2_connect; eauto.
  - unfold Mqtt.publish in H. destruct (connect w) as [x w1] eqn:Hc.
    simplify_eq. eapply inv2_spawn, inv2_connect; eauto.
  - by eapply inv2_resume.
  - destruct (clients w !! c) as [info |] eqn:Hc; simplify_option_eq.
    eapply (inv2_settle w _ c); eauto; rewrite ?resolve_self; try done.
    apply resolve_settled; cbn. eexists.
    by apply (MqttFacts.lookup_alter_here (fun i => set_timer i false)).
  - destruct (clients w !! c) as [info |] eqn:Hc; simplify_option_eq.
    assert (Inv (end_client (stop_timer (call w (clearTimeout c)) c))) as HI1.
    { pose proof (MqttFacts.inv_stop_timer w c HI0) as HI'.
      unfold end_client. cbn.
      case_match; (eapply MqttFacts.inv_frame; [ .. | exact HI' ]);
        cbn; rewrite ?MqttFacts.connects_app; cbn; first [ done | lia ]. }
    eapply (inv2_settle w _ c); eauto; rewrite ?reject_self by done;
      try (unfold end_client; cbn; by case_match).
    replace (alter (fun i => set_timer i false) c (clients w))
      with (clients (end_client (stop_timer (call w (clearTimeout c)) c)))
      by (unfold end_client; cbn; by case_match).
    apply reject_settled; [ done | ].
    unfold end_client; cbn. case_match; cbn; eexists;
      by apply (MqttFacts.lookup_alter_here (fun i => set_timer i false)).
  - destruct (clients w !! c) as [info |] eqn:Hc; [ | discriminate ]; cbn in H.
    destruct (timer info); simplify_eq.
    assert (Inv (end_client (stop_timer w c))) as HI1.
    { pose proof (MqttFacts.inv_stop_timer w c HI0) as HI'.
      unfold end_client. cbn.
      case_match; (eapply MqttFacts.inv_frame; [ .. | exact HI' ]);
        cbn; rewrite ?MqttFacts.connects_app; cbn; first [ done | lia ]. }
    eapply (inv2_settle w _ c); eauto; rewrite ?reject_self by done;
      try (unfold end_client; cbn; by case_match).
    replace (alter (fun i => set_timer i false) c (clients w))
      with (clients (end_client (stop_timer w c)))
      by (unfold end_client; cbn; by case_match).
    apply reject_settled; [ done | ].
    unfold end_client; cbn. case_match; cbn; eexists;
      by apply (MqttFacts.lookup_alter_here (fun i => set_timer i false)).
  - destruct (clients w !! c) as [info |] eqn:Hc; simplify_option_eq.
    destruct HI. split; cbn; try done.
    intros Hnone. destruct (inv_fresh0 Hnone) as (Hcl & _). by rewrite Hcl in Hc.
  - destruct (clients w !! c) as [info |] eqn:Hc; simplify_option_eq.
    destruct HI. split; cbn; try done.
    intros Hnone. destruct (inv_fresh0 Hnone) as (Hcl & _). by rewrite Hcl in Hc.
  - destruct (clients w !! c); simplify_option_eq. by apply inv2_on_message.
  - unfold subscribe_acked in H.
    destruct (tasks w !! t) as [[] |]; simplify_eq;
      [ | by apply inv2_set_task ].
    destruct err; [ by apply inv2_set_task | ].
    destruct (subscribers (self w) !! topic) as [cbs |] eqn:Hl;
      apply inv2_set_task; [ | done ].
    apply inv2_subscribers; [ | done ].
    intros Hnone. destruct (inv_fresh _ _ HI Hnone) as (_ & Hs & _).
    by rewrite Hs in Hl.
Qed.

Lemma inv2_exec (evs : list Event) (w w' : World) :
  Inv w -> Inv2 NAME w -> exec w evs = Some w' -> Inv w' /\ Inv2 NAME w'.
Proof.
  revert w. induction evs as [| ev evs IH]; cbn; intros w HI0 HI H.
  - by simplify_eq.
  - destruct (step w ev) as [w1 |] eqn:Hs; [ | discriminate ].
    eapply IH; [ eapply MqttFacts.inv_step | eapply inv2_step | ]; eauto.
Qed.

Lemma reachable (evs : list Event) (w : World) :
  exec initial evs = Some w -> Inv w /\ Inv2 NAME w.
Proof. apply inv2_exec; [ apply MqttFacts.inv_initial | apply inv2_initial ]. Qed.

(** X19. The timer of [connectToBroker] can fire exactly on a client whose
    connection attempt is in flight: the ['connect'] and ['error']
    listeners clear it, and it fires once. *)
Theorem timeout_only_in_flight (evs : list Event) (w : World) (c : ClientId) :
  exec initial evs = Some w ->
  is_Some (step w (On_timeout c))
  <-> exists info, clients w !! c = Some info /\ pending info = true.
Proof.
  intros Hexec. destruct (reachable _ _ Hexec) as [_ HI]. cbn.
  destruct (clients w !! c) as [info |] eqn:Hc; cbn.
  - pose proof (inv_timer _ _ HI _ _ Hc) as Ht.
    destruct (timer info); split.
    + eauto.
    + by eauto.
    + by intros [? [=]].
    + intros (i & [= <-] & Hp). congruence.
  - split; [ by intros [? [=]] | by intros (i & [=] & _) ].
Qed.

(** X20. [getCurrentBroker()] is [''] until [mqtt.connect] has been called, and
    the configured broker name from then on, whether the attempt
    succeeded or not and whether the client was disconnected or not. *)
Theorem getCurrentBroker_reports (evs : list Event) (w : World) :
  exec initial evs = Some w ->
  getCurrentBroker w
  = if decide (connects (calls w) = 0%nat) then Some "" else NAME.
Proof.
  intros Hexec. destruct (reachable _ _ Hexec) as [HI0 HI].
  unfold getCurrentBroker.
  rewrite (inv_connects _ HI0), <- (inv_clients _ HI0).
  destruct (client (self w)) as [c |] eqn:Hcur.
  - destruct (inv_current _ _ HI _ Hcur) as [Hlen ->].
    case_decide as Hd; [ | done ]. rewrite Hd in Hlen. discriminate.
  - destruct (inv_fresh _ _ HI Hcur) as (-> & _ & _ & ->). done.
Qed.

(** X21. After [disconnect()] no callback is registered and the singleton
    reports no connection, in every state it can reach: a message that
    still arrives reaches nobody. A connection attempt in flight is not
    cancelled, and with no promise stored the next [connect()] starts a
    new [doConnect]. *)
Theorem disconnect_forgets (evs : list Event) (w : World) :
  exec initial evs = Some w ->
  subscribers (self (disconnect w)) = ∅
  /\ connected_client (disconnect w) = None
  /\ in_flight (disconnect w) = in_flight w
  /\ (forall c topic payload,
        is_Some (clients w !! c) ->
        step (disconnect w) (On_message c topic payload) = Some (disconnect w))
  /\ (connectPromise (self w) = None ->
      fst (connect (disconnect w)) = Started (length (runs w))).
Proof.
  intros Hexec. destruct (reachable _ _ Hexec) as [HI0 HI].
  assert (subscribers (self (disconnect w)) = ∅) as Hs.
  { unfold disconnect. destruct (client (self w)) eqn:Hcur; [ done | ].
    by destruct (inv_fresh _ _ HI Hcur) as (_ & -> & _). }
  assert (isConnected (self (disconnect w)) = false) as Hco.
  { unfold disconnect. destruct (client (self w)) eqn:Hcur; [ done | ].
    by destruct (inv_fresh _ _ HI Hcur) as (_ & _ & -> & _). }
  assert (clients (disconnect w) = clients w) as Hcl.
  { unfold disconnect. by destruct (client (self w)). }
  split; [ done | ].
  split; [ unfold connected_client; rewrite Hco; by case_match | ].
  split; [ unfold in_flight; by rewrite Hcl | ].
  split.
  - intros c topic payload [info Hc]. cbn. rewrite Hcl, Hc. cbn. f_equal.
    revert Hs. generalize (disconnect w). intros w1 Hs.
    induction (messageHandlers info) as [| n IH]; [ done | ].
    rewrite Nat.iter_succ, IH. unfold on_message. by rewrite Hs.
  - intros Hp. unfold Mqtt.connect.
    assert (connectPromise (self (disconnect w)) = None) as ->.
    { unfold disconnect. by destruct (client (self w)). }
    rewrite Hco, andb_false_r. unfold Mqtt.doConnect. cbn.
    unfold disconnect. by destruct (client (self w)).
Qed.

(** X22. When the library reports the connection of the attempt in flight,
    the [doConnect] promise is fulfilled, the singleton is connected on
    that client, which now carries the one ['message'] listener, its timer
    is cleared, no attempt is in flight, nothing else is asked of the
    library, and every [connect()] awaiting that promise returns. *)
Theorem attempt_succeeds (evs : list Event) (w w' : World) (c : ClientId)
    (info : ClientInfo) :
  exec initial evs = Some w ->
  clients w !! c = Some info -> pending info = true ->
  step w (On_connect c) = Some w' ->
  runs w' !! owner info = Some (Finished Fulfilled)
  /\ connected_client w' = Some c
  /\ in_flight w' = []
  /\ clients w' !! c
     = Some {| owner := owner info; config := config info; pending := false;
               timer := false; messageHandlers := 1 |}
  /\ calls w' = (calls w ++ [clearTimeout c])%list
  /\ (forall t x,
        tasks w' !! t = Some (InConnect x) ->
        x = Started (owner info) \/ x = Joined (owner info) ->
        exists w'',
          resume w' t = Some w''
          /\ tasks w'' !! t = Some (Returned Fulfilled)).
Proof.
  intros Hexec Hc Hp Hstep. destruct (reachable _ _ Hexec) as [HI _].
  destruct (inv_pending _ HI _ _ Hc Hp) as (Hrun & Hcur & Hnone).
  assert (owner info < length (runs w))%nat as Hlt by (by eapply lookup_lt_Some).
  assert (w' = with_runs
                 (with_clients
                    (with_self (call w (clearTimeout c))
                       (set_isConnected (self w) true))
                    (alter add_messageHandler c
                       (alter (fun i => set_pending i false) c
                          (alter (fun i => set_timer i false) c (clients w)))))
                 (<[owner info := Finished Fulfilled]> (runs w))) as Hw'.
  { cbn in Hstep. rewrite Hc in Hstep. cbn in Hstep. injection Hstep as <-.
    unfold resolve. cbn. unfold ClientId in *.
    rewrite (MqttFacts.lookup_alter_here (fun i => set_timer i false) _ _ _ Hc).
    cbn. rewrite Hp. unfold setupMessageHandler. cbn. by rewrite Hcur. }
  assert (runs w' !! owner info = Some (Finished Fulfilled)) as Hr.
  { rewrite Hw'. cbn. by apply list_lookup_insert_eq. }
  split; [ done | ].
  split; [ rewrite Hw'; unfold connected_client; cbn; by rewrite Hcur | ].
  split.
  { apply MqttFacts.in_flight_none. rewrite Hw'. cbn. intros c' info' Hl.
    apply MqttFacts.lookup_alter_inv in Hl as (i2 & Hl & Hcase2).
    apply MqttFacts.lookup_alter_inv in Hl as (i1 & Hl & Hcase1).
    apply MqttFacts.lookup_alter_inv in Hl as (i0 & Hl & Hcase0).
    destruct Hcase1 as [(Hne & ->) | (<- & ->)];
      [ | by destruct Hcase2 as [(_ & ->) | (_ & ->)] ].
    destruct Hcase0 as [(_ & ->) | (? & _)]; [ | done ].
    destruct Hcase2 as [(_ & ->) | (? & _)]; [ | done ].
    destruct (pending i0) eqn:Hp0; [ | done ].
    destruct (inv_pending _ HI _ _ Hl Hp0) as (_ & Hcur' & _). congruence. }
  split.
  { rewrite Hw'. cbn. etrans.
    - apply (MqttFacts.lookup_alter_here add_messageHandler),
        (MqttFacts.lookup_alter_here (fun i => set_pending i false)),
        (MqttFacts.lookup_alter_here (fun i => set_timer i false)), Hc.
    - unfold add_messageHandler, set_pending, set_timer. cbn.
      by rewrite Hnone. }
  split; [ by rewrite Hw' | ].
  intros t x Hl Hx. unfold resume. rewrite Hl.
  assert (outcome w' x = Some Fulfilled) as ->.
  { destruct Hx as [-> | ->]; cbn; by rewrite Hr. }
  cbn. eexists. split; [ reflexivity | ].
  cbn. apply list_lookup_insert_eq.
  destruct x; cbn; by eapply lookup_lt_Some.
Qed.

Lemma connect_connected (w : World) (c : ClientId) :
  connected_client w = Some c -> connectPromise (self w) = None ->
  connect w = (Immediate, w).
Proof.
  intros Hcc Hp. apply connected_client_Some in Hcc as [Hcur Hco].
  unfold Mqtt.connect. rewrite Hp, Hcur, Hco.
  by rewrite bool_decide_eq_true_2.
Qed.

Lemma step_call_subscribe (w : World) (c : ClientId) (topic : string)
    (cb : Callback) :
  connected_client w = Some c -> connectPromise (self w) = None ->
  step w (Call_subscribe topic cb)
  = Some (spawn w (SubscribeConnecting Immediate topic cb)).
Proof.
  intros Hcc Hp. cbn. unfold Mqtt.subscribe.
  by rewrite (connect_connected w c Hcc Hp).
Qed.

(** [subscribe(topic, callback)] on a connected singleton, up to the
    point where the topic is looked up. *)
Lemma subscribe_resumed (w : World) (c : ClientId) (topic : string)
    (cb : Callback) (rest : list Event) :
  connected_client w = Some c -> connectPromise (self w) = None ->
  exec w (Call_subscribe topic cb :: Resume (length (tasks w)) :: rest)
  = exec (subscribe_connected (spawn w (SubscribeConnecting Immediate topic cb))
            (length (tasks w)) topic cb) rest.
Proof.
  intros Hcc Hp. cbn [Mqtt.exec Mqtt.step]. unfold Mqtt.subscribe.
  rewrite (connect_connected w c Hcc Hp). unfold resume.
  replace (tasks (spawn w (SubscribeConnecting Immediate topic cb))
             !! length (tasks w))
    with (Some (SubscribeConnecting Immediate topic cb))
    by (symmetry; by apply list_lookup_middle).
  reflexivity.
Qed.

(** X23. Subscribing to a topic nobody listens to and unsubscribing again, on a
    connected singleton, leaves the listener lists as they were; the broker
    is asked to subscribe and then to unsubscribe, once each. *)
Theorem subscribe_then_unsubscribe (w : World) (c : ClientId) (topic : string)
    (cb : Callback) :
  connected_client w = Some c -> connectPromise (self w) = None ->
  subscribers (self w) !! topic = None ->
  exists w',
    exec w [ Call_subscribe topic cb; Resume (length (tasks w));
             On_ack (length (tasks w)) None; Call_unsubscribe topic (Some cb) ]
    = Some w'
    /\ subscribers (self w') = subscribers (self w)
    /\ calls w' = (calls w ++ [client_subscribe c topic 0;
                               client_unsubscribe c topic])%list
    /\ tasks w' !! length (tasks w) = Some (Returned Fulfilled).
Proof.
  intros Hcc Hp Hl.
  rewrite (subscribe_resumed w c topic cb _ Hcc Hp).
  apply connected_client_Some in Hcc as [Hcur Hco].
  assert (length (tasks w)
          < length (tasks w ++ [SubscribeConnecting Immediate topic cb]))%nat
    as Hlt by (rewrite length_app; cbn; lia).
  unfold subscribe_connected, connected_client. cbn. rewrite Hcur, Hco, Hl. cbn.
  rewrite list_lookup_insert_eq by done. cbn.
  rewrite lookup_insert_eq. cbn.
  unfold unsubscribe, connected_client. cbn.
  rewrite lookup_insert_eq. cbn. rewrite Nat.eqb_refl, Hcur, Hco. cbn.
  eexists. split; [ reflexivity | ]. cbn.
  split; [ by rewrite delete_insert_eq, delete_insert_id | ].
  split; [ by rewrite <- app_assoc | ].
  apply list_lookup_insert_eq. by rewrite length_insert.
Qed.

(** X24. When the broker refuses a subscription, [subscribe] rejects with the
    broker's error, but the topic keeps the empty listener list made
    before asking: the next [subscribe] to it registers its callback and
    returns without asking the broker again. *)
Theorem refused_subscription_is_not_retried (w : World) (c : ClientId)
    (topic : string) (cb cb' : Callback) (e : Error) :
  connected_client w = Some c -> connectPromise (self w) = None ->
  subscribers (self w) !! topic = None ->
  exists w',
    exec w [ Call_subscribe topic cb; Resume (length (tasks w));
             On_ack (length (tasks w)) (Some e);
             Call_subscribe topic cb'; Resume (S (length (tasks w))) ]
    = Some w'
    /\ tasks w' !! length (tasks w) = Some (Returned (Rejected e))
    /\ tasks w' !! S (length (tasks w)) = Some (Returned Fulfilled)
    /\ subscribers (self w') = <[topic := [cb']]> (subscribers (self w))
    /\ calls w' = (calls w ++ [client_subscribe c topic 0])%list.
Proof.
  intros Hcc Hp Hl.
  rewrite (subscribe_resumed w c topic cb _ Hcc Hp).
  apply connected_client_Some in Hcc as [Hcur Hco].
  assert (length (tasks w)
          < length (tasks w ++ [SubscribeConnecting Immediate topic cb]))%nat
    as Hlt by (rewrite length_app; cbn; lia).
  unfold subscribe_connected, connected_client. cbn. rewrite Hcur, Hco, Hl. cbn.
  rewrite list_lookup_insert_eq by done. cbn.
  unfold Mqtt.subscribe, Mqtt.connect. cbn. rewrite Hp, Hcur, Hco. cbn.
  unfold resume. cbn.
  rewrite !list_insert_insert_eq.
  rewrite list_lookup_middle
    by (rewrite length_insert, length_app; cbn; lia).
  cbn.
  unfold subscribe_connected, connected_client. cbn. rewrite Hcur, Hco. cbn.
  rewrite lookup_insert_eq. cbn.
  eexists. split; [ reflexivity | ]. cbn.
  split.
  { rewrite list_lookup_insert_ne by lia.
    rewrite lookup_app_l by (rewrite !length_insert; exact Hlt).
    apply list_lookup_insert_eq. by rewrite !length_insert. }
  split.
  { apply list_lookup_insert_eq.
    rewrite length_app, !length_insert, length_app. cbn. lia. }
  split; [ by rewrite insert_insert_eq | done ].
Qed.

(** X25. Two calls of [subscribe] for one new topic, the second going on before
    the broker has answered the first: the broker is asked once, the second
    call returns at once, and when the answer comes the callback of the
    first call is registered after the callback of the second. *)
Theorem concurrent_subscribers_share_one_subscription (w : World) (c : ClientId)
    (topic : string) (cb cb' : Callback) :
  connected_client w = Some c -> connectPromise (self w) = None ->
  subscribers (self w) !! topic = None ->
  exists w1 w',
    exec w [ Call_subscribe topic cb; Call_subscribe topic cb';
             Resume (length (tasks w)); Resume (S (length (tasks w))) ]
    = Some w1
    /\ tasks w1 !! S (length (tasks w)) = Some (Returned Fulfilled)
    /\ subscribers (self w1) = <[topic := [cb']]> (subscribers (self w))
    /\ step w1 (On_ack (length (tasks w)) None) = Some w'
    /\ tasks w' !! length (tasks w) = Some (Returned Fulfilled)
    /\ subscribers (self w') = <[topic := [cb'; cb]]> (subscribers (self w))
    /\ calls w' = (calls w ++ [client_subscribe c topic 0])%list.
Proof.
  intros Hcc Hp Hl.
  cbn [Mqtt.exec].
  rewrite (step_call_subscribe w c) by done.
  rewrite (step_call_subscribe _ c) by done.
  apply connected_client_Some in Hcc as [Hcur Hco].
  cbn [Mqtt.step]. unfold resume. cbn.
  rewrite <- app_assoc. cbn.
  rewrite list_lookup_middle by done. cbn.
  unfold subscribe_connected, connected_client. cbn. rewrite Hcur, Hco, Hl. cbn.
  rewrite list_lookup_insert_ne by lia.
  rewrite list_lookup_middle by (rewrite length_app; cbn; lia).
  cbn. rewrite Hcur, Hco. cbn. rewrite lookup_insert_eq. cbn.
  eexists _, _. split; [ reflexivity | ]. cbn.
  split.
  { apply list_lookup_insert_eq. rewrite length_insert, !length_app. cbn. lia. }
  split; [ by rewrite insert_insert_eq | ].
  rewrite list_lookup_insert_ne by lia.
  rewrite list_lookup_insert_eq by (rewrite !length_app; cbn; lia).
  unfold subscribe_acked. cbn. rewrite lookup_insert_eq. cbn.
  split; [ reflexivity | ]. cbn.
  split.
  { apply list_lookup_insert_eq. rewrite !length_insert, !length_app. cbn. lia. }
  split; [ by rewrite !insert_insert_eq | done ].
Qed.


Lemma connect_calls (P : LibCall -> Prop) (w : World) :
  (forall c, on_client c = None -> P c) -> extends_by P w (snd (connect w)).
Proof.
  intros HP. unfold Mqtt.connect.
  destruct (connectPromise (self w)); [ apply extends_by_refl | ].
  case_match; [ apply extends_by_refl | ].
  cbn. eexists. split; [ cbn; rewrite <- ?app_assoc; reflexivity | ].
  repeat constructor; by apply HP.
Qed.

Lemma reject_calls (P : LibCall -> Prop) (w : World) (c : ClientId) (e : Error) :
  (forall c, on_client c = None -> P c) -> extends_by P w (reject w c e).
Proof.
  intros HP. unfold reject.
  destruct (clients w !! c) as [info |]; [ | apply extends_by_refl ].
  destruct (pending info); [ | apply extends_by_refl ]. cbn.
  destruct (runs w !! owner info) as [[c0 [| cfg rest] | r] |]; cbn;
    try (by apply extends_by_same).
  eexists. split; [ cbn; rewrite <- ?app_assoc; reflexivity | ].
  repeat constructor; by apply HP.
Qed.

Lemma resolve_calls (w : World) (c : ClientId) : calls (resolve w c) = calls w.
Proof. unfold resolve, setupMessageHandler. by repeat case_match. Qed.

Lemma on_message_calls (w : World) topic payload (n : nat) :
  calls (Nat.iter n (fun w => on_message toString w topic payload) w) = calls w.
Proof.
  induction n as [| n IH]; [ done | ].
  rewrite Nat.iter_succ. unfold on_message. by case_match.
Qed.

Lemma end_client_calls (P : LibCall -> Prop) (w : World) :
  (forall c, on_client c = None -> P c) -> extends_by P w (end_client w).
Proof.
  intros HP. unfold end_client.
  case_match; [ by apply extends_by_call, HP | apply extends_by_refl ].
Qed.

(** X26. Whatever happens, the library is asked to subscribe, to publish or to
    unsubscribe only on the current client and only while the singleton
    takes itself to be connected. *)
Theorem library_used_only_when_connected (w w' : World) (ev : Event) :
  step w ev = Some w' -> extends_by (on_connected w) w w'.
Proof.
  assert (forall c, on_client c = None -> on_connected w c) as HP.
  { intros c Hc x Hx. congruence. }
  destruct ev as [ | topic cb | topic msg | topic ocb | | btn now | btn a v now
                | t | c | c e | c | c | c | c topic payload | t err ];
    cbn; intros H.
  - pose proof (connect_calls _ w HP) as He.
    destruct (connect w) as [x w1]. simplify_eq.
    eapply extends_by_trans; [ exact He | by apply extends_by_same ].
  - unfold Mqtt.subscribe in H. pose proof (connect_calls _ w HP) as He.
    destruct (connect w) as [x w1]. simplify_eq.
    eapply extends_by_trans; [ exact He | by apply extends_by_same ].
  - unfold Mqtt.publish in H. pose proof (connect_calls _ w HP) as He.
    destruct (connect w) as [x w1]. simplify_eq.
    eapply extends_by_trans; [ exact He | by apply extends_by_same ].
  - simplify_eq. unfold unsubscribe.
    destruct (subscribers (self w) !! topic) as [cbs |];
      [ | apply extends_by_refl ].
    destruct (match ocb with Some cb => remove_first cb cbs | None => [] end);
      [ | by apply extends_by_same ].
    destruct (connected_client _) as [c |] eqn:Hcc;
      [ | by apply extends_by_same ].
    apply (extends_by_call _ w). by intros x [= <-].
  - simplify_eq. unfold disconnect.
    case_match; [ | apply extends_by_refl ].
    by apply (extends_by_call _ w), HP.
  - unfold Mqtt.publish in H. pose proof (connect_calls _ w HP) as He.
    destruct (connect w) as [x w1]. simplify_eq.
    eapply extends_by_trans; [ exact He | by apply extends_by_same ].
  - unfold Mqtt.publish in H. pose proof (connect_calls _ w HP) as He.
    destruct (connect w) as [x w1]. simplify_eq.
    eapply extends_by_trans; [ exact He | by apply extends_by_same ].
  - unfold resume in H.
    destruct (tasks w !! t) as [[x | x topic cb | | x topic msg | |] |];
      try done;
      destruct (outcome w x) as [r |]; try done; cbn in H; simplify_eq.
    + apply extends_by_same. by destruct x.
    + destruct r; [ | apply extends_by_same; by destruct x ].
      unfold subscribe_connected.
      assert (connected_client (leave_connect w x) = connected_client w) as ->
        by (by destruct x).
      destruct (connected_client w) as [c |] eqn:Hcc;
        [ | apply extends_by_same; by destruct x ].
      destruct (subscribers (self (leave_connect w x)) !! topic);
        [ apply extends_by_same; by destruct x | ].
      exists [client_subscribe c topic 0]. split; [ by destruct x | ].
      repeat constructor. by intros y [= <-].
    + destruct r; [ | apply extends_by_same; by destruct x ].
      unfold publish_connected.
      assert (connected_client (leave_connect w x) = connected_client w) as ->
        by (by destruct x).
      destruct (connected_client w) as [c |] eqn:Hcc;
        [ | apply extends_by_same; by destruct x ].
      exists [client_publish c topic msg 0]. split; [ by destruct x | ].
      repeat constructor. by intros y [= <-].
  - destruct (clients w !! c); simplify_option_eq.
    exists [clearTimeout c]. split; [ by rewrite resolve_calls | ].
    repeat constructor. by apply HP.
  - destruct (clients w !! c); simplify_option_eq.
    eapply extends_by_trans; [ | by apply reject_calls ].
    eapply extends_by_trans; [ | by apply end_client_calls ].
    apply (extends_by_call _ w), HP. done.
  - destruct (clients w !! c) as [info |]; [ | discriminate ]; cbn in H.
    destruct (timer info); simplify_eq.
    eapply extends_by_trans; [ | by apply reject_calls ].
    eapply extends_by_trans; [ | by apply end_client_calls ].
    by apply extends_by_same.
  - destruct (clients w !! c); simplify_option_eq. by apply extends_by_same.
  - destruct (clients w !! c); simplify_option_eq. by apply extends_by_same.
  - destruct (clients w !! c); simplify_option_eq.
    apply extends_by_same, on_message_calls.
  - unfold subscribe_acked in H.
    repeat case_match; simplify_eq; by apply extends_by_same.
Qed.

Lemma publish_settles (w : World) (c : ClientId) (topic msg : string)
    (err : option Error) (ev : Event) :
  connected_client w = Some c -> connectPromise (self w) = None ->
  step w ev = Some (spawn w (PublishConnecting Immediate topic msg)) ->
  exists w',
    exec w [ ev; Resume (length (tasks w)); On_ack (length (tasks w)) err ]
    = Some w'
    /\ calls w' = (calls w ++ [client_publish c topic msg 0])%list
    /\ tasks w' !! length (tasks w)
       = Some (Returned match err with
                        | Some e => Rejected e
                        | None => Fulfilled
                        end)
    /\ self w' = self w.
Proof.
  intros Hcc Hp Hstep. cbn [Mqtt.exec]. rewrite Hstep.
  apply connected_client_Some in Hcc as [Hcur Hco].
  cbn [Mqtt.step]. unfold resume. cbn.
  rewrite list_lookup_middle by done. cbn.
  unfold publish_connected, connected_client. cbn. rewrite Hcur, Hco. cbn.
  rewrite list_lookup_insert_eq by (rewrite length_app; cbn; lia). cbn.
  eexists. split; [ reflexivity | ]. cbn.
  split; [ done | ]. split; [ | by destruct (self w) ].
  apply list_lookup_insert_eq. rewrite length_insert, length_app. cbn. lia.
Qed.

(** X27. On a connected singleton [publishButtonControl] and
    [publishMediaControl] ask the library once, for the serialised message
    on the topic of its kind at QoS 0, change nothing of the singleton, and
    settle as the library answers: fulfilled, or rejected with its
    error. *)
Theorem control_messages_are_published (w : World) (c : ClientId)
    (err : option Error) :
  connected_client w = Some c -> connectPromise (self w) = None ->
  let settled_as w' :=
    tasks w' !! length (tasks w)
    = Some (Returned match err with
                     | Some e => Rejected e
                     | None => Fulfilled
                     end)
    /\ self w' = self w in
  (forall b now,
      exists w',
        exec w [ Call_publishButtonControl b now; Resume (length (tasks w));
                 On_ack (length (tasks w)) err ] = Some w'
        /\ calls w'
           = (calls w ++ [client_publish c "home/buttonControl"
                            (JSON_stringify (ButtonControl_json b now)) 0])%list
        /\ settled_as w')
  /\ (forall b a v now,
        exists w',
          exec w [ Call_publishMediaControl b a v now; Resume (length (tasks w));
                   On_ack (length (tasks w)) err ] = Some w'
          /\ calls w'
             = (calls w ++ [client_publish c "home/mediaControl"
                              (JSON_stringify (MediaControl_json b a v now)) 0])%list
          /\ settled_as w').
Proof.
  intros Hcc Hp. cbn zeta. split; intros; apply publish_settles; try done;
    cbn [Mqtt.step]; unfold Mqtt.publish;
    by rewrite (connect_connected w c Hcc Hp).
Qed.

End Facts.

(** An instance: the timer of the attempt of [two_connects] can fire. *)
Lemma timeout_only_in_flight_witness :
  is_Some (sample_step (world_after two_connects) (On_timeout 0)).
Proof.
  apply (proj2 (timeout_only_in_flight
                  (Some "broker") (Some "wss://broker.example/mqtt")
                  None None (fun n => "media_remote_0")
                  string_of_list_byte sample_stringify
                  two_connects (world_after two_connects) 0%nat
                  ltac:(vm_compute; reflexivity))).
  eexists. split; [ vm_compute; reflexivity | reflexivity ].
Defined.

(** An instance: the broker of [two_connects] is reported while the attempt
    is still in flight. *)
Lemma getCurrentBroker_reports_witness :
  getCurrentBroker (world_after two_connects) = Some "broker".
Proof.
  exact (getCurrentBroker_reports
           (Some "broker") (Some "wss://broker.example/mqtt")
           None None (fun n => "media_remote_0")
           string_of_list_byte sample_stringify
           two_connects (world_after two_connects)
           ltac:(vm_compute; reflexivity)).
Defined.

(** An instance: the two subscribers of [two_subscribers] are forgotten. *)
Lemma disconnect_forgets_witness :
  subscribers (self (disconnect (world_after two_subscribers))) = ∅.
Proof.
  exact (proj1 (disconnect_forgets
                  (Some "broker") (Some "wss://broker.example/mqtt")
                  None None (fun n => "media_remote_0")
                  string_of_list_byte sample_stringify
                  two_subscribers (world_after two_subscribers)
                  ltac:(vm_compute; reflexivity))).
Defined.

(** An instance: the attempt of [two_connects] succeeds. *)
Lemma attempt_succeeds_witness :
  connected_client world_first_connected = Some 0%nat.
Proof.
  exact (proj1 (proj2 (attempt_succeeds
                  (Some "broker") (Some "wss://broker.example/mqtt")
                  None None (fun n => "media_remote_0")
                  string_of_list_byte sample_stringify
                  two_connects (world_after two_connects)
                  world_first_connected 0%nat _
                  ltac:(vm_compute; reflexivity)
                  ltac:(vm_compute; reflexivity) eq_refl
                  ltac:(vm_compute; reflexivity)))).
Defined.

(** An instance: one page subscribes to [home/buttonA] and lets go. *)
Lemma subscribe_then_unsubscribe_witness :
  exists w',
    sample_exec world_connected
      [ Call_subscribe "home/buttonA" 7; Resume 1; On_ack 1 None;
        Call_unsubscribe "home/buttonA" (Some 7%nat) ] = Some w'
    /\ subscribers (self w') = subscribers (self world_connected).
Proof.
  destruct (subscribe_then_unsubscribe
              (Some "broker") (Some "wss://broker.example/mqtt")
              None None (fun n => "media_remote_0")
              string_of_list_byte sample_stringify
              world_connected 0%nat "home/buttonA" 7%nat
              ltac:(vm_compute; reflexivity) ltac:(vm_compute; reflexivity)
              ltac:(vm_compute; reflexivity))
    as (w' & He & Hs & _).
  exists w'. split; [ exact He | exact Hs ].
Defined.

(** An instance: the broker refuses [home/buttonA]; the next subscriber is
    registered all the same. *)
Lemma refused_subscription_is_not_retried_witness :
  exists w',
    sample_exec world_connected
      [ Call_subscribe "home/buttonA" 7; Resume 1; On_ack 1 (Some refused);
        Call_subscribe "home/buttonA" 8; Resume 2 ] = Some w'
    /\ tasks w' !! 2%nat = Some (Returned Fulfilled).
Proof.
  destruct (refused_subscription_is_not_retried
              (Some "broker") (Some "wss://broker.example/mqtt")
              None None (fun n => "media_remote_0")
              string_of_list_byte sample_stringify
              world_connected 0%nat "home/buttonA" 7%nat 8%nat refused
              ltac:(vm_compute; reflexivity) ltac:(vm_compute; reflexivity)
              ltac:(vm_compute; reflexivity))
    as (w' & He & _ & Ht & _).
  exists w'. split; [ exact He | exact Ht ].
Defined.

(** An instance: two pages subscribe to [home/buttonA] at once. *)
Lemma concurrent_subscribers_share_one_subscription_witness :
  exists w1,
    sample_exec world_connected
      [ Call_subscribe "home/buttonA" 7; Call_subscribe "home/buttonA" 8;
        Resume 1; Resume 2 ] = Some w1
    /\ tasks w1 !! 2%nat = Some (Returned Fulfilled).
Proof.
  destruct (concurrent_subscribers_share_one_subscription
              (Some "broker") (Some "wss://broker.example/mqtt")
              None None (fun n => "media_remote_0")
              string_of_list_byte sample_stringify
              world_connected 0%nat "home/buttonA" 7%nat 8%nat
              ltac:(vm_compute; reflexivity) ltac:(vm_compute; reflexivity)
              ltac:(vm_compute; reflexivity))
    as (w1 & w' & He & Ht & _).
  exists w1. split; [ exact He | exact Ht ].
Defined.

(** An instance: a page publishes on the connected singleton. *)
Lemma library_used_only_when_connected_witness :
  extends_by (on_connected world_connected) world_connected
    (default world_connected
       (sample_step world_connected (Call_publish "home/buttonA" "{}"))).
Proof.
  apply (library_used_only_when_connected
           (Some "broker") (Some "wss://broker.example/mqtt")
           None None (fun n => "media_remote_0")
           string_of_list_byte sample_stringify
           world_connected _ (Call_publish "home/buttonA" "{}")).
  vm_compute. reflexivity.
Defined.

(** An instance: the remote makes B the active button. *)
Lemma control_messages_are_published_witness :
  exists w',
    sample_exec world_connected
      [ Call_publishButtonControl B 0%float; Resume 1; On_ack 1 None ] = Some w'
    /\ calls w'
       = (calls world_connected
          ++ [client_publish 0%nat "home/buttonControl" "{}" 0])%list.
Proof.
  destruct (proj1 (control_messages_are_published
                     (Some "broker") (Some "wss://broker.example/mqtt")
                     None None (fun n => "media_remote_0")
                     string_of_list_byte sample_stringify
                     world_connected 0%nat None
                     ltac:(vm_compute; reflexivity)
                     ltac:(vm_compute; reflexivity))
              B 0%float)
    as (w' & He & Hc & _).
  exists w'. split; [ exact He | exact Hc ].
Defined.

End ClientFacts.
